(** * Quadruped control loop (kits/quad/src/quadruped_control.cpp)

    A shallow embedding of the control thread of [main]: the wait and [dt]
    computation, the joystick reads, and the [switch] over [cur_ctrl_state].
    One loop iteration is the function [tick]; the calls made on the
    [Quadruped] object, the input manager and the Qt application are
    recorded, in program order, as a list of [Event]s.  What the loop reads
    from outside in one iteration (the steady clock, the joystick, the values
    returned by the [Quadruped] calls) is a [TickIn] record.

    Numbers.  [steady_clock] time points and durations are integer
    nanosecond counts ([Z]).  The source converts a state's run time to
    [duration<double>] seconds and compares it with [startup_seconds = 1.9]
    or [leg_swing_time = 0.5]; int-to-double conversion and division by 1e9
    are monotone and 1.9e9/1e9, 5e8/1e9 round to the literals, so the
    comparison is the comparison of the nanosecond count with 1900000000
    (resp. 500000000), which is what the model uses ([Binary64] has the
    comparison on binary64 itself, checked at the thresholds).  [double]
    and [float] values of the rotation algebra are modelled as real
    numbers.

    [Eigen] holds the matrix, quaternion and angle-axis operations the loop
    calls, [Control] the loop, [Threads] the start and shutdown of the
    control thread in [main], [Leg] the leg model of
    robot/quadruped_leg.hpp. *)

From Stdlib Require Import ZArith List Bool Lia Reals Lra.
From Stdlib Require Floats Uint63.
From Stdlib Require NsatzTactic RNsatz.
Import ListNotations.

Local Open Scope Z_scope.

(** ** The part of Eigen the loop uses, over the reals *)

Module Eigen.
Local Open Scope R_scope.

Record Vector3d : Type := mkVector3d { vx : R; vy : R; vz : R }.

Record Matrix3d : Type := mkMatrix3d {
  m00 : R; m01 : R; m02 : R;
  m10 : R; m11 : R; m12 : R;
  m20 : R; m21 : R; m22 : R }.

Record AngleAxisd : Type := mkAngleAxisd { angle : R; axis : Vector3d }.

Record Quaterniond : Type := mkQuaterniond { qw : R; qx : R; qy : R; qz : R }.

Definition UnitX : Vector3d := mkVector3d 1 0 0.
Definition UnitY : Vector3d := mkVector3d 0 1 0.
Definition UnitZ : Vector3d := mkVector3d 0 0 1.

Definition Identity : Matrix3d := mkMatrix3d 1 0 0 0 1 0 0 0 1.

Definition transpose (a : Matrix3d) : Matrix3d :=
  mkMatrix3d (m00 a) (m10 a) (m20 a)
             (m01 a) (m11 a) (m21 a)
             (m02 a) (m12 a) (m22 a).

(** [a * b] on [Matrix3d]. *)
Definition mmul (a b : Matrix3d) : Matrix3d :=
  mkMatrix3d
    (m00 a * m00 b + m01 a * m10 b + m02 a * m20 b)
    (m00 a * m01 b + m01 a * m11 b + m02 a * m21 b)
    (m00 a * m02 b + m01 a * m12 b + m02 a * m22 b)
    (m10 a * m00 b + m11 a * m10 b + m12 a * m20 b)
    (m10 a * m01 b + m11 a * m11 b + m12 a * m21 b)
    (m10 a * m02 b + m11 a * m12 b + m12 a * m22 b)
    (m20 a * m00 b + m21 a * m10 b + m22 a * m20 b)
    (m20 a * m01 b + m21 a * m11 b + m22 a * m21 b)
    (m20 a * m02 b + m21 a * m12 b + m22 a * m22 b).

Definition norm (v : Vector3d) : R :=
  sqrt (vx v * vx v + vy v * vy v + vz v * vz v).

Definition vscale (k : R) (v : Vector3d) : Vector3d :=
  mkVector3d (k * vx v) (k * vy v) (k * vz v).

Definition vdiv (v : Vector3d) (n : R) : Vector3d :=
  mkVector3d (vx v / n) (vy v / n) (vz v / n).

(** [AngleAxis::toRotationMatrix]. *)
Definition toRotationMatrix (aa : AngleAxisd) : Matrix3d :=
  let sin_axis := vscale (sin (angle aa)) (axis aa) in
  let c := cos (angle aa) in
  let cos1_axis := vscale (1 - c) (axis aa) in
  let txy := vx cos1_axis * vy (axis aa) in
  let txz := vx cos1_axis * vz (axis aa) in
  let tyz := vy cos1_axis * vz (axis aa) in
  mkMatrix3d
    (vx cos1_axis * vx (axis aa) + c) (txy - vz sin_axis) (txz + vy sin_axis)
    (txy + vz sin_axis) (vy cos1_axis * vy (axis aa) + c) (tyz - vx sin_axis)
    (txz - vy sin_axis) (tyz + vx sin_axis) (vz cos1_axis * vz (axis aa) + c).

(** [Quaternion(const AngleAxis&)]. *)
Definition quat_of_aa (aa : AngleAxisd) : Quaterniond :=
  let ha := 0.5 * angle aa in
  mkQuaterniond (cos ha)
                (sin ha * vx (axis aa)) (sin ha * vy (axis aa))
                (sin ha * vz (axis aa)).

(** Quaternion product. *)
Definition qmul (a b : Quaterniond) : Quaterniond :=
  mkQuaterniond
    (qw a * qw b - qx a * qx b - qy a * qy b - qz a * qz b)
    (qw a * qx b + qx a * qw b + qy a * qz b - qz a * qy b)
    (qw a * qy b + qy a * qw b + qz a * qx b - qx a * qz b)
    (qw a * qz b + qz a * qw b + qx a * qy b - qy a * qx b).

(** [Quaternion::toRotationMatrix]. *)
Definition quat_toRotationMatrix (q : Quaterniond) : Matrix3d :=
  let tx := 2 * qx q in
  let ty := 2 * qy q in
  let tz := 2 * qz q in
  let twx := tx * qw q in
  let twy := ty * qw q in
  let twz := tz * qw q in
  let txx := tx * qx q in
  let txy := ty * qx q in
  let txz := tz * qx q in
  let tyy := ty * qy q in
  let tyz := tz * qy q in
  let tzz := tz * qz q in
  mkMatrix3d
    (1 - (tyy + tzz)) (txy - twz) (txz + twy)
    (txy + twz) (1 - (txx + tzz)) (tyz - twx)
    (txz - twy) (tyz + twx) (1 - (txx + tyy)).

(** [Quaternion(const Matrix3&)]: the branch on the trace, then on the
    largest diagonal coefficient. *)
Definition quat_of_matrix (m : Matrix3d) : Quaterniond :=
  let t := m00 m + m11 m + m22 m in
  if Rlt_dec 0 t then
    let t1 := sqrt (t + 1) in
    let t2 := 0.5 / t1 in
    mkQuaterniond (0.5 * t1)
                  ((m21 m - m12 m) * t2)
                  ((m02 m - m20 m) * t2)
                  ((m10 m - m01 m) * t2)
  else if Rlt_dec (m00 m) (m11 m) then
    if Rlt_dec (m11 m) (m22 m) then
      (* i = 2, j = 0, k = 1 *)
      let t1 := sqrt (m22 m - m00 m - m11 m + 1) in
      let t2 := 0.5 / t1 in
      mkQuaterniond ((m10 m - m01 m) * t2)
                    ((m02 m + m20 m) * t2)
                    ((m12 m + m21 m) * t2)
                    (0.5 * t1)
    else
      (* i = 1, j = 2, k = 0 *)
      let t1 := sqrt (m11 m - m22 m - m00 m + 1) in
      let t2 := 0.5 / t1 in
      mkQuaterniond ((m02 m - m20 m) * t2)
                    ((m01 m + m10 m) * t2)
                    (0.5 * t1)
                    ((m21 m + m12 m) * t2)
  else
    if Rlt_dec (m00 m) (m22 m) then
      (* i = 2, j = 0, k = 1 *)
      let t1 := sqrt (m22 m - m00 m - m11 m + 1) in
      let t2 := 0.5 / t1 in
      mkQuaterniond ((m10 m - m01 m) * t2)
                    ((m02 m + m20 m) * t2)
                    ((m12 m + m21 m) * t2)
                    (0.5 * t1)
    else
      (* i = 0, j = 1, k = 2 *)
      let t1 := sqrt (m00 m - m11 m - m22 m + 1) in
      let t2 := 0.5 / t1 in
      mkQuaterniond ((m21 m - m12 m) * t2)
                    (0.5 * t1)
                    ((m10 m + m01 m) * t2)
                    ((m20 m + m02 m) * t2).

(** [atan2 y x], used by the quaternion to angle-axis conversion. *)
Definition atan2 (y x : R) : R :=
  if Rlt_dec 0 x then atan (y / x)
  else if Rlt_dec x 0 then
    if Rle_dec 0 y then atan (y / x) + PI else atan (y / x) - PI
  else if Rlt_dec 0 y then PI / 2
  else if Rlt_dec y 0 then - (PI / 2)
  else 0.

(** [AngleAxis::operator=(const QuaternionBase&)]. *)
Definition aa_of_quat (q : Quaterniond) : AngleAxisd :=
  let v := mkVector3d (qx q) (qy q) (qz q) in
  let n := norm v in
  if Req_dec_T n 0 then mkAngleAxisd 0 (mkVector3d 1 0 0)
  else
    mkAngleAxisd (2 * atan2 n (Rabs (qw q)))
                 (vdiv v (if Rlt_dec (qw q) 0 then - n else n)).

(** [AngleAxisd(const Matrix3d&)], which goes through the quaternion. *)
Definition fromRotationMatrix (m : Matrix3d) : AngleAxisd :=
  aa_of_quat (quat_of_matrix m).

End Eigen.

(** ** Run times on binary64 *)

Module Binary64.
Import PrimFloat.

(** The test [state_run_time.count() >= threshold] as the source makes it:
    the nanosecond count converted to [double] and divided by 1e9, compared
    with the [double] threshold.  It is used to check the integer
    comparison of the model at the two thresholds. *)
Definition seconds_double (d : Z) : float :=
  div (of_uint63 (Uint63.of_Z d)) 1e9%float.

Definition reached_double (threshold : float) (d : Z) : bool :=
  leb threshold (seconds_double d).

(** The literals [1.9] and [0.5] as binary64 values. *)
Definition startup_seconds_double : float := 0x1.e666666666666p+0%float.
Definition leg_swing_time_double : float := 0.5%float.

End Binary64.

(** ** The control thread *)

Module Control.
Import Eigen.

(** [enum ctrl_state_type]. *)
Inductive ctrl_state_type : Type :=
  | HEXA_CTRL_STAND_UP_PLAN
  | HEXA_CTRL_STAND_UP
  | QUAD_CTRL_STAND_UP1
  | QUAD_CTRL_STAND_UP2
  | QUAD_CTRL_STAND_UP3
  | QUAD_CTRL_NORMAL_LEFT
  | QUAD_CTRL_NORMAL_RIGHT
  | QUAD_CTRL_ORIENT
  | QUAD_CTRL_PASSIVE_ORIENT
  | CTRL_STATES_COUNT.

(** [Quadruped::SwingMode], as far as the loop names it. *)
Inductive SwingMode : Type :=
  | swing_mode_virtualLeg1
  | swing_mode_virtualLeg2.

(** Time points and durations of [steady_clock], in nanoseconds. *)
Definition time_point : Type := Z.
Definition duration : Type := Z.

Definition ns_per_ms : Z := 1000000.

(** [double startup_seconds = 1.9], in nanoseconds. *)
Definition startup_seconds : duration := 1900000000.

(** [double leg_swing_time = 0.5], in nanoseconds. *)
Definition leg_swing_time : duration := 500000000.

(** [long interval_ms = 5.0]. *)
Definition interval_ms : Z := 5.

(** The [(int)] cast of a 64-bit count. *)
Definition to_int (z : Z) : Z := (z + 2 ^ 31) mod 2 ^ 32 - 2 ^ 31.

(** [duration_cast<milliseconds>] of a nanosecond count truncates. *)
Definition to_milliseconds (d : duration) : Z := Z.quot d ns_per_ms.

(** What the loop does to the outside world, in program order. *)
Inductive Event : Type :=
  | SleepFor (ms : Z)
  | InputUpdate
  | AppExit
  | PlanStandUpTraj (d : duration)
  | ExecStandUpTraj (t : duration)
  | PrintRunTime (t : duration)
  | SpreadAllLegs
  | PushAllLegs (t d : duration)
  | StartBodyRUpdate
  | PrepareQuadMode
  | GetBodyR
  | RunTest (mode : SwingMode) (t d : duration)
  | PrepareTrajectories (mode : SwingMode) (d : duration)
  | PrintAxes (right_vert left_vert : R)
  | ReOrient (target : Matrix3d).

(** What one iteration reads from outside. *)
Record TickIn : Type := mkTickIn {
  clock_wake : time_point;     (* now() at the top of the body *)
  clock_now : time_point;      (* now() after the sleep *)
  clock_state : time_point;    (* now() read into state_curr_time *)
  clock_enter : time_point;    (* now() read into state_enter_time on a transition *)
  quit_button : bool;          (* input->getQuitButtonPushed() *)
  translation_velocity : Vector3d;  (* input->getTranslationVelocityCmd() *)
  rotation_velocity : Vector3d;     (* input->getRotationVelocityCmd() *)
  right_vert_raw : R;          (* input->getRightVertRaw() *)
  left_vert_raw : R;           (* input->getLeftVertRaw() *)
  finished : bool;             (* result of spreadAllLegs / pushAllLegs / prepareQuadMode *)
  body_R : Matrix3d            (* result of quadruped->getBodyR() *)
}.

(** The variables of [main] and of the thread body that live across
    iterations. *)
Record Vars : Type := mkVars {
  cur_ctrl_state : ctrl_state_type;
  state_enter_time : time_point;
  state_curr_time : time_point;
  state_run_time : duration;
  prev_time : time_point;
  dt : duration;
  translation_velocity_cmd : Vector3d;
  rotation_velocity_cmd : Vector3d;
  isFinished : bool;
  bodyR : Matrix3d;
  balance_body_R : Matrix3d;
  diff_body_R : Matrix3d;
  control_R : Matrix3d;
  tmp_aa : AngleAxisd;
  axis_aa : Vector3d
}.

Definition set_cur_ctrl_state (x : ctrl_state_type) (s : Vars) : Vars :=
  mkVars x (state_enter_time s) (state_curr_time s) (state_run_time s)
         (prev_time s) (dt s) (translation_velocity_cmd s)
         (rotation_velocity_cmd s) (isFinished s) (bodyR s)
         (balance_body_R s) (diff_body_R s) (control_R s) (tmp_aa s)
         (axis_aa s).

Definition set_state_enter_time (x : time_point) (s : Vars) : Vars :=
  mkVars (cur_ctrl_state s) x (state_curr_time s) (state_run_time s)
         (prev_time s) (dt s) (translation_velocity_cmd s)
         (rotation_velocity_cmd s) (isFinished s) (bodyR s)
         (balance_body_R s) (diff_body_R s) (control_R s) (tmp_aa s)
         (axis_aa s).

(** The two lines every timed case starts with:
    [state_curr_time = now(); state_run_time = state_curr_time - state_enter_time]. *)
Definition read_state_clock (i : TickIn) (s : Vars) : Vars :=
  mkVars (cur_ctrl_state s) (state_enter_time s) (clock_state i)
         (clock_state i - state_enter_time s)
         (prev_time s) (dt s) (translation_velocity_cmd s)
         (rotation_velocity_cmd s) (isFinished s) (bodyR s)
         (balance_body_R s) (diff_body_R s) (control_R s) (tmp_aa s)
         (axis_aa s).

Definition set_isFinished (x : bool) (s : Vars) : Vars :=
  mkVars (cur_ctrl_state s) (state_enter_time s) (state_curr_time s)
         (state_run_time s) (prev_time s) (dt s)
         (translation_velocity_cmd s) (rotation_velocity_cmd s) x (bodyR s)
         (balance_body_R s) (diff_body_R s) (control_R s) (tmp_aa s)
         (axis_aa s).

Definition set_balance_body_R (x : Matrix3d) (s : Vars) : Vars :=
  mkVars (cur_ctrl_state s) (state_enter_time s) (state_curr_time s)
         (state_run_time s) (prev_time s) (dt s)
         (translation_velocity_cmd s) (rotation_velocity_cmd s)
         (isFinished s) (bodyR s) x (diff_body_R s) (control_R s) (tmp_aa s)
         (axis_aa s).

(** The assignments of the passive-orientation case. *)
Definition set_orientation (b d c : Matrix3d) (aa : AngleAxisd)
    (ax : Vector3d) (s : Vars) : Vars :=
  mkVars (cur_ctrl_state s) (state_enter_time s) (state_curr_time s)
         (state_run_time s) (prev_time s) (dt s)
         (translation_velocity_cmd s) (rotation_velocity_cmd s)
         (isFinished s) b (balance_body_R s) d c aa ax.

(** The assignments before the [switch]: [dt], [prev_time] and the two
    velocity commands. *)
Definition set_tick_reads (i : TickIn) (s : Vars) : Vars :=
  mkVars (cur_ctrl_state s) (state_enter_time s) (state_curr_time s)
         (state_run_time s) (clock_now i) (clock_now i - prev_time s)
         (translation_velocity i) (rotation_velocity i)
         (isFinished s) (bodyR s) (balance_body_R s) (diff_body_R s)
         (control_R s) (tmp_aa s) (axis_aa s).

(** [need_to_wait] of the "Wait!" block. *)
Definition need_to_wait (prev now : time_point) : Z :=
  Z.max 0 (to_int (to_milliseconds (prev + interval_ms * ns_per_ms - now))).

(** [target_body_R] of [QUAD_CTRL_ORIENT]: three angle-axis rotations
    multiplied as quaternions, then assigned to a matrix. *)
Definition yaw_angle : R := (0 / 180 * PI)%R.
Definition pitch_angle (right_vert : R) : R := (right_vert * 16 / 180 * PI)%R.
Definition roll_angle (left_vert : R) : R := (left_vert * 16 / 180 * PI)%R.

Definition target_body_R (right_vert left_vert : R) : Matrix3d :=
  quat_toRotationMatrix
    (qmul (qmul (quat_of_aa (mkAngleAxisd yaw_angle UnitZ))
                (quat_of_aa (mkAngleAxisd (pitch_angle right_vert) UnitY)))
          (quat_of_aa (mkAngleAxisd (roll_angle left_vert) UnitX))).

(** The gain of the passive-orientation case. *)
Definition balance_gain : R := 0.031%R.

(** [tmp_aa] after [tmp_aa.angle() = 0.031 * tmp_aa.angle()]. *)
Definition reduced_difference (diff : Matrix3d) : AngleAxisd :=
  let aa := fromRotationMatrix diff in
  mkAngleAxisd (balance_gain * angle aa) (axis aa).

(** The [switch (cur_ctrl_state)]. *)
Definition dispatch (i : TickIn) (s : Vars) : Vars * list Event :=
  match cur_ctrl_state s with
  | HEXA_CTRL_STAND_UP_PLAN =>
      (set_state_enter_time (clock_enter i)
         (set_cur_ctrl_state HEXA_CTRL_STAND_UP s),
       [PlanStandUpTraj startup_seconds])
  | HEXA_CTRL_STAND_UP =>
      let s1 := read_state_clock i s in
      let ev := [ExecStandUpTraj (state_run_time s1);
                 PrintRunTime (state_run_time s1)] in
      if startup_seconds <=? state_run_time s1
      then (set_cur_ctrl_state QUAD_CTRL_NORMAL_LEFT s1, ev)
      else (s1, ev)
  | QUAD_CTRL_STAND_UP1 =>
      let s1 := set_isFinished (finished i) (read_state_clock i s) in
      if startup_seconds <=? state_run_time s1
      then (set_state_enter_time (clock_enter i)
              (set_cur_ctrl_state QUAD_CTRL_STAND_UP2 s1),
            [SpreadAllLegs])
      else (s1, [SpreadAllLegs])
  | QUAD_CTRL_STAND_UP2 =>
      let s1 := set_isFinished (finished i) (read_state_clock i s) in
      if startup_seconds <=? state_run_time s1
      then (set_state_enter_time (clock_enter i)
              (set_cur_ctrl_state QUAD_CTRL_STAND_UP3 s1),
            [PushAllLegs (state_run_time s1) startup_seconds;
             StartBodyRUpdate])
      else (s1, [PushAllLegs (state_run_time s1) startup_seconds])
  | QUAD_CTRL_STAND_UP3 =>
      let s1 := set_isFinished (finished i) (read_state_clock i s) in
      if startup_seconds <=? state_run_time s1
      then (set_state_enter_time (clock_enter i)
              (set_balance_body_R (body_R i)
                 (set_cur_ctrl_state QUAD_CTRL_PASSIVE_ORIENT s1)),
            [PrepareQuadMode; GetBodyR])
      else (s1, [PrepareQuadMode])
  | QUAD_CTRL_NORMAL_LEFT =>
      let s1 := read_state_clock i s in
      let run := RunTest swing_mode_virtualLeg1 (state_run_time s1)
                         leg_swing_time in
      if leg_swing_time <=? state_run_time s1
      then (set_state_enter_time (clock_enter i)
              (set_cur_ctrl_state QUAD_CTRL_NORMAL_RIGHT s1),
            [run; PrepareTrajectories swing_mode_virtualLeg2 leg_swing_time])
      else (s1, [run])
  | QUAD_CTRL_NORMAL_RIGHT =>
      let s1 := read_state_clock i s in
      let run := RunTest swing_mode_virtualLeg2 (state_run_time s1)
                         leg_swing_time in
      if leg_swing_time <=? state_run_time s1
      then (set_state_enter_time (clock_enter i)
              (set_cur_ctrl_state QUAD_CTRL_NORMAL_LEFT s1),
            [run; PrepareTrajectories swing_mode_virtualLeg1 leg_swing_time])
      else (s1, [run])
  | QUAD_CTRL_ORIENT =>
      let s1 := read_state_clock i s in
      (s1,
       [StartBodyRUpdate;
        PrintAxes (right_vert_raw i) (left_vert_raw i);
        ReOrient (target_body_R (right_vert_raw i) (left_vert_raw i))])
  | QUAD_CTRL_PASSIVE_ORIENT =>
      let s1 := read_state_clock i s in
      let b := body_R i in
      let d := mmul (balance_body_R s1) (transpose b) in
      let aa := reduced_difference d in
      let c := mmul (control_R s1) (toRotationMatrix aa) in
      (set_orientation b d c aa (axis aa) s1,
       [StartBodyRUpdate; GetBodyR; ReOrient c])
  | CTRL_STATES_COUNT => (s, [])
  end.

(** One iteration of the [while] body. *)
Definition tick (i : TickIn) (s : Vars) : Vars * list Event :=
  let wait := SleepFor (need_to_wait (prev_time s) (clock_wake i)) in
  let quit := if quit_button i then [AppExit] else [] in
  let r := dispatch i (set_tick_reads i s) in
  (fst r, wait :: InputUpdate :: quit ++ snd r).

(** Iterations in a row, over the inputs they read. *)
Fixpoint run (ins : list TickIn) (s : Vars) : Vars * list Event :=
  match ins with
  | [] => (s, [])
  | i :: rest =>
      let r := tick i s in
      let r' := run rest (fst r) in
      (fst r', snd r ++ snd r')
  end.

Definition final (ins : list TickIn) (s : Vars) : Vars := fst (run ins s).
Definition trace (ins : list TickIn) (s : Vars) : list Event :=
  snd (run ins s).

(** The control states visited, one per iteration. *)
Fixpoint trajectory (ins : list TickIn) (s : Vars) : list ctrl_state_type :=
  match ins with
  | [] => []
  | i :: rest =>
      let s' := fst (tick i s) in
      cur_ctrl_state s' :: trajectory rest s'
  end.

(** *** Vocabulary of the statements *)

(** The stand-up sequence of the state table. *)
Definition stand_up_next (c : ctrl_state_type) : option ctrl_state_type :=
  match c with
  | QUAD_CTRL_STAND_UP1 => Some QUAD_CTRL_STAND_UP2
  | QUAD_CTRL_STAND_UP2 => Some QUAD_CTRL_STAND_UP3
  | QUAD_CTRL_STAND_UP3 => Some QUAD_CTRL_PASSIVE_ORIENT
  | _ => None
  end.

(** The call each stand-up phase makes, whose result lands in [isFinished]. *)
Definition stand_up_call (c : ctrl_state_type) (t : duration) : option Event :=
  match c with
  | QUAD_CTRL_STAND_UP1 => Some SpreadAllLegs
  | QUAD_CTRL_STAND_UP2 => Some (PushAllLegs t startup_seconds)
  | QUAD_CTRL_STAND_UP3 => Some PrepareQuadMode
  | _ => None
  end.

(** The two gait states of the state table: the group whose swing the
    state advances, the state it hands over to, and the group whose swing is
    prepared at the hand-over. *)
Definition gait_row (c : ctrl_state_type)
    : option (SwingMode * ctrl_state_type * SwingMode) :=
  match c with
  | QUAD_CTRL_NORMAL_LEFT =>
      Some (swing_mode_virtualLeg1, QUAD_CTRL_NORMAL_RIGHT,
            swing_mode_virtualLeg2)
  | QUAD_CTRL_NORMAL_RIGHT =>
      Some (swing_mode_virtualLeg2, QUAD_CTRL_NORMAL_LEFT,
            swing_mode_virtualLeg1)
  | _ => None
  end.

(** What every iteration emits before the [switch]. *)
Definition preamble (i : TickIn) (s : Vars) : list Event :=
  SleepFor (need_to_wait (prev_time s) (clock_wake i)) :: InputUpdate ::
  (if quit_button i then [AppExit] else []).

(** A simulated clock: every clock read of an iteration returns [t]. *)
Definition at_time (t : time_point) (i : TickIn) : TickIn :=
  mkTickIn t t t t (quit_button i) (translation_velocity i)
           (rotation_velocity i) (right_vert_raw i) (left_vert_raw i)
           (finished i) (body_R i).

(** The instant of the [k]-th iteration when iterations are exactly
    [interval_ms] apart and the first clock read of [main] is 0. *)
Definition tick_instant (k : nat) : time_point :=
  Z.of_nat k * (interval_ms * ns_per_ms).

(** The inputs of iterations [k], [k+1], ..., [k+n-1] under that clock;
    everything but the clock is taken from [env]. *)
Fixpoint sim_inputs (env : nat -> TickIn) (k n : nat) : list TickIn :=
  match n with
  | O => []
  | S n' => at_time (tick_instant k) (env k) :: sim_inputs env (S k) n'
  end.

(** The leg group an event advances through its swing, if any. *)
Definition swings (m : SwingMode) (e : Event) : bool :=
  match e, m with
  | RunTest swing_mode_virtualLeg1 _ _, swing_mode_virtualLeg1 => true
  | RunTest swing_mode_virtualLeg2 _ _, swing_mode_virtualLeg2 => true
  | _, _ => false
  end.

Definition group_swinging (m : SwingMode) (evs : list Event) : bool :=
  existsb (swings m) evs.

(** An input and a variable store with the velocity commands blanked. *)
Definition zero3 : Vector3d := mkVector3d 0 0 0.

Definition without_velocity_in (i : TickIn) : TickIn :=
  mkTickIn (clock_wake i) (clock_now i) (clock_state i) (clock_enter i)
           (quit_button i) zero3 zero3 (right_vert_raw i) (left_vert_raw i)
           (finished i) (body_R i).

Definition without_velocity (s : Vars) : Vars :=
  mkVars (cur_ctrl_state s) (state_enter_time s) (state_curr_time s)
         (state_run_time s) (prev_time s) (dt s) zero3 zero3
         (isFinished s) (bodyR s) (balance_body_R s) (diff_body_R s)
         (control_R s) (tmp_aa s) (axis_aa s).

(** An input with another result for the stand-up call. *)
Definition with_finished (b : bool) (i : TickIn) : TickIn :=
  mkTickIn (clock_wake i) (clock_now i) (clock_state i) (clock_enter i)
           (quit_button i) (translation_velocity i) (rotation_velocity i)
           (right_vert_raw i) (left_vert_raw i) b (body_R i).

(** The angular discrepancy the passive-orientation case measures between
    the balance target and a body orientation. *)
Definition angular_error (target body : Matrix3d) : R :=
  angle (fromRotationMatrix (mmul target (transpose body))).

(** Rotations by an angle about the coordinate axes, and their product in
    yaw, pitch, roll order. *)
Definition rotZ (a : R) : Matrix3d := toRotationMatrix (mkAngleAxisd a UnitZ).
Definition rotY (a : R) : Matrix3d := toRotationMatrix (mkAngleAxisd a UnitY).
Definition rotX (a : R) : Matrix3d := toRotationMatrix (mkAngleAxisd a UnitX).

Definition yaw_pitch_roll (y p r : R) : Matrix3d :=
  mmul (mmul (rotZ y) (rotY p)) (rotX r).

(** Sixteen degrees, in radians. *)
Definition sixteen_degrees : R := (16 / 180 * PI)%R.

(** A store with other values in the two timing variables of the loop. *)
Definition with_timing (p : time_point) (d : duration) (s : Vars) : Vars :=
  mkVars (cur_ctrl_state s) (state_enter_time s) (state_curr_time s)
         (state_run_time s) p d (translation_velocity_cmd s)
         (rotation_velocity_cmd s) (isFinished s) (bodyR s)
         (balance_body_R s) (diff_body_R s) (control_R s) (tmp_aa s)
         (axis_aa s).

(** An input with another body orientation. *)
Definition with_body_R (b : Matrix3d) (i : TickIn) : TickIn :=
  mkTickIn (clock_wake i) (clock_now i) (clock_state i) (clock_enter i)
           (quit_button i) (translation_velocity i) (rotation_velocity i)
           (right_vert_raw i) (left_vert_raw i) (finished i) b.

(** The loop closed on a body that tracks the command: with [body0] the
    orientation of the body when the commanded rotation is the identity,
    the orientation read in an iteration is the rotation commanded so far,
    [control_R], applied to [body0]. *)
Definition tracked_body (body0 : Matrix3d) (s : Vars) : Matrix3d :=
  mmul (control_R s) body0.

Fixpoint track (ins : list TickIn) (body0 : Matrix3d) (s : Vars) : Vars :=
  match ins with
  | [] => s
  | i :: rest =>
      track rest body0 (fst (tick (with_body_R (tracked_body body0 s) i) s))
  end.

(** A vector of length one. *)
Definition unit_vector (a : Vector3d) : Prop :=
  (vx a * vx a + vy a * vy a + vz a * vz a = 1)%R.

(** The quaternion of the half angle, up to a common sign. *)
Definition half_angle_quat (sg : R) (aa : AngleAxisd) : Quaterniond :=
  let h := (0.5 * angle aa)%R in
  mkQuaterniond (sg * cos h)
                (sg * (sin h * vx (axis aa)))
                (sg * (sin h * vy (axis aa)))
                (sg * (sin h * vz (axis aa))).

(** The tests that end a stand-up phase and a gait state. *)
Definition stand_up_due (i : TickIn) (s : Vars) : bool :=
  startup_seconds <=? clock_state i - state_enter_time s.

Definition gait_due (i : TickIn) (s : Vars) : bool :=
  leg_swing_time <=? clock_state i - state_enter_time s.

(** A body rolled about the X axis by the angle whose cosine is 7/25 and
    sine 24/25 (about 74 degrees). *)
Definition tilted : Matrix3d :=
  mkMatrix3d 1 0 0
             0 (7 / 25) (- (24 / 25))
             0 (24 / 25) (7 / 25).

(** A variable store and an input to run examples from. *)
Definition vars0 (c : ctrl_state_type) : Vars :=
  mkVars c 0 0 0 0 0 zero3 zero3 false Identity Identity Identity Identity
         (mkAngleAxisd 0 UnitX) UnitX.

Definition input0 : TickIn :=
  mkTickIn 0 0 0 0 false zero3 zero3 0 0 false Identity.

(** An input that differs from [input0] in the velocity reads only. *)
Definition input_fast : TickIn :=
  mkTickIn 0 0 0 0 false (mkVector3d 1 2 3) (mkVector3d 4 5 6) 0 0 false
           Identity.

(** The passive-orientation state with the balance target and the control
    rotation at the identity, the previous iteration at [p]. *)
Definition passive0 (p : time_point) : Vars :=
  with_timing p 0 (vars0 QUAD_CTRL_PASSIVE_ORIENT).

(** An iteration at 5 ms that reads the tilted body. *)
Definition input_tilted : TickIn :=
  with_body_R tilted (at_time (tick_instant 1) input0).

End Control.

(** ** The leg model (robot/quadruped_leg.hpp) *)

Module Leg.
Import Eigen.
Local Open Scope R_scope.

(** [QuadLeg::LegConfiguration]. *)
Inductive LegConfiguration : Type := Left | Right.

(** [static constexpr int num_joints_ = 3]. *)
Definition num_joints_ : nat := 3.

(** What a leg is built from: the arguments of the [QuadLeg] constructor
    and the two link lengths of its kinematic chain. *)
Record LegGeometry : Type := mkLegGeometry {
  angle_rad : R;
  distance : R;
  index_ : nat;
  configuration : LegConfiguration;
  upper_link : R;
  lower_link : R
}.

(** The outcome of an inverse-kinematics query: three joint angles, or
    none. *)
Inductive IKResult : Type :=
  | Solution (angles : Vector3d)
  | NoSolution.

(** The [bool] that [computeIK] returns. *)
Definition succeeded (r : IKResult) : bool :=
  match r with
  | Solution _ => true
  | NoSolution => false
  end.

(** A target strictly outside the workspace: farther from the hip than the
    two links reach, or nearer than their difference allows. *)
Definition outside_workspace (g : LegGeometry) (target : Vector3d) : Prop :=
  upper_link g + lower_link g < norm target \/
  norm target < Rabs (upper_link g - lower_link g).

(** Modelled from the spec: [QuadLeg::computeIK] is declared in
    robot/quadruped_leg.hpp and its body is not among the sources.  By
    sections 4.1 and 8 the query fails when the distance of the target from
    the hip is greater than the sum of the link lengths or less than their
    absolute difference, and otherwise it is the answer of the leg's
    kinematic model ([solveIK] of section 6) started from the seed. *)
Definition computeIK (g : LegGeometry)
    (solveIK : Vector3d -> Vector3d -> IKResult)
    (seed target : Vector3d) : IKResult :=
  if Rlt_dec (upper_link g + lower_link g) (norm target) then NoSolution
  else if Rlt_dec (norm target) (Rabs (upper_link g - lower_link g))
       then NoSolution
       else solveIK seed target.

(** Modelled from the spec: the per-leg step of the controller's tick
    ([Quadruped], robot/quadruped.hpp) is not among the sources.  By
    sections 4.4 and 7(b), when the leg's query fails the previous tick's
    command is held for that leg and the failure is reported; otherwise the
    solution is commanded.  The [bool] is the report. *)
Definition leg_command (prev : Vector3d) (r : IKResult) : Vector3d * bool :=
  match r with
  | Solution a => (a, false)
  | NoSolution => (prev, true)
  end.

(** Modelled from the spec: the joint command vector of one tick (section
    3, three angles per leg), built leg by leg from the previous vector and
    the legs' query results, with the indices of the legs that failed. *)
Fixpoint joint_command (leg : nat) (prev : list Vector3d)
    (results : list IKResult) : list Vector3d * list nat :=
  match prev, results with
  | p :: prev', r :: results' =>
      let c := leg_command p r in
      let rest := joint_command (S leg) prev' results' in
      (fst c :: fst rest, if snd c then leg :: snd rest else snd rest)
  | _, _ => ([], [])
  end.

(** A leg with links of 0.3 and 0.3, a solver that answers with its seed,
    and a target one unit away. *)
Definition leg0 : LegGeometry := mkLegGeometry 0 0 0 Left 0.3 0.3.
Definition seed_solver (seed target : Vector3d) : IKResult := Solution seed.
Definition far_target : Vector3d := mkVector3d 1 0 0.

End Leg.

(** ** The two threads of [main]

    [main] starts the control thread, runs [app.exec()], stores [false] in
    [control_execute] and joins the thread.  The two threads meet in the
    atomic flag, in [app.exit()] and in the join only, so a run is an
    interleaving of moves: one move of [main] is one of its four
    statements, one move of the control thread is the load of the flag or
    one loop body.  [app.exit()] ends [app.exec()] when the event loop is
    running and is lost otherwise. *)

Module Threads.
Import Eigen Control.

(** Where [main] is once the control thread has been started: before
    [app.exec()], inside it, at [control_execute.store(false)], at
    [control_thread.join()], or returned. *)
Inductive main_pc : Type :=
  | BeforeExec | InExec | AtStore | AtJoin | Returned.

(** Where the control thread is: at the [control_execute.load] of the
    [while] condition, inside the loop body, or past the loop. *)
Inductive thread_pc : Type :=
  | AtLoad | InBody | Finished.

Record World : Type := mkWorld {
  main_at : main_pc;
  thread_at : thread_pc;
  control_execute : bool;
  exit_called : bool;      (* app.exit() has reached the running event loop *)
  vars : Vars;
  emitted : list Event
}.

(** Which thread moves next; a move of the control thread carries what the
    iteration reads. *)
Inductive Move : Type :=
  | MainMove
  | ThreadMove (i : TickIn).

Definition main_in_exec (w : World) : bool :=
  match main_at w with
  | InExec => true
  | _ => false
  end.

(** One atomic move.  [None] when the thread cannot move: [app.exec()]
    before any [app.exit()], [join] before the thread has finished, or a
    thread that is done. *)
Definition step (m : Move) (w : World) : option World :=
  match m with
  | MainMove =>
      match main_at w with
      | BeforeExec =>
          Some (mkWorld InExec (thread_at w) (control_execute w)
                        (exit_called w) (vars w) (emitted w))
      | InExec =>
          if exit_called w
          then Some (mkWorld AtStore (thread_at w) (control_execute w)
                             (exit_called w) (vars w) (emitted w))
          else None
      | AtStore =>
          Some (mkWorld AtJoin (thread_at w) false
                        (exit_called w) (vars w) (emitted w))
      | AtJoin =>
          match thread_at w with
          | Finished =>
              Some (mkWorld Returned (thread_at w) (control_execute w)
                            (exit_called w) (vars w) (emitted w))
          | _ => None
          end
      | Returned => None
      end
  | ThreadMove i =>
      match thread_at w with
      | AtLoad =>
          Some (mkWorld (main_at w)
                        (if control_execute w then InBody else Finished)
                        (control_execute w) (exit_called w) (vars w)
                        (emitted w))
      | InBody =>
          let r := tick i (vars w) in
          Some (mkWorld (main_at w) AtLoad (control_execute w)
                        (exit_called w || (quit_button i && main_in_exec w))
                        (fst r) (emitted w ++ snd r))
      | Finished => None
      end
  end.

(** A schedule, move by move. *)
Fixpoint moves (ms : list Move) (w : World) : option World :=
  match ms with
  | [] => Some w
  | m :: rest =>
      match step m w with
      | Some w' => moves rest w'
      | None => None
      end
  end.

(** The world right after [std::thread control_thread(...)]: the flag was
    stored [true] before. *)
Definition start (s : Vars) : World :=
  mkWorld BeforeExec AtLoad true false s [].

(** No thread can move. *)
Definition stuck (w : World) : Prop :=
  forall m : Move, step m w = None.

(** How many moves are left at most once the flag has been cleared. *)
Definition moves_left (w : World) : nat :=
  match main_at w with
  | Returned => 0
  | _ =>
      match thread_at w with
      | InBody => 3
      | AtLoad => 2
      | Finished => 1
      end
  end.

(** An input with the quit button pushed. *)
Definition input_quit : TickIn :=
  mkTickIn 0 0 0 0 true zero3 zero3 0 0 false Identity.

(** What holds in every world the two threads can reach. *)
Definition invariant (w : World) : Prop :=
  (main_at w = Returned -> thread_at w = Finished) /\
  (thread_at w = Finished -> control_execute w = false) /\
  (control_execute w = false <-> main_at w = AtJoin \/ main_at w = Returned) /\
  (exit_called w = false -> main_at w = BeforeExec \/ main_at w = InExec) /\
  (main_at w = BeforeExec -> exit_called w = false).

(** A schedule that takes a world in which [app.exit()] was called to the
    return of [main]. *)
Definition shutdown_schedule (w : World) : list Move :=
  let main_part :=
    match main_at w with
    | BeforeExec => [MainMove; MainMove; MainMove]
    | InExec => [MainMove; MainMove]
    | AtStore => [MainMove]
    | AtJoin | Returned => []
    end in
  let thread_part :=
    match thread_at w with
    | InBody => [ThreadMove input0; ThreadMove input0]
    | AtLoad => [ThreadMove input0]
    | Finished => []
    end in
  match main_at w with
  | Returned => []
  | _ => main_part ++ thread_part ++ [MainMove]
  end.

(** A run with a quit: [main] enters [app.exec()], the thread makes one
    iteration that sees the quit button, [main] leaves [app.exec()] and
    clears the flag, the thread reads it and leaves the loop, [main] joins
    and returns. *)
Definition quit_schedule : list Move :=
  [MainMove; ThreadMove input0; ThreadMove input_quit;
   MainMove; MainMove; ThreadMove input0; MainMove].

End Threads.

(** ** Vocabulary for the flow of the control loop *)

Module Flow.
Import Eigen Control Threads.

(** The place of a control state in the sequence the loop starts in
    ([cur_ctrl_state = QUAD_CTRL_STAND_UP1]); the other states have none. *)
Definition stage (c : ctrl_state_type) : option nat :=
  match c with
  | QUAD_CTRL_STAND_UP1 => Some 0%nat
  | QUAD_CTRL_STAND_UP2 => Some 1%nat
  | QUAD_CTRL_STAND_UP3 => Some 2%nat
  | QUAD_CTRL_PASSIVE_ORIENT => Some 3%nat
  | _ => None
  end.

(** Every state of the list has a stage, and from [n] on the stages go up
    one step at a time or stay. *)
Fixpoint climbs (n : nat) (l : list ctrl_state_type) : bool :=
  match l with
  | [] => true
  | c :: rest =>
      match stage c with
      | Some m => (n <=? m)%nat && (m <=? S n)%nat && climbs m rest
      | None => false
      end
  end.

(** Reads [evs] from left to right: [Some] when every [GetBodyR] comes
    after a [StartBodyRUpdate], with whether one has been seen at the end. *)
Fixpoint body_reads (started : bool) (evs : list Event) : option bool :=
  match evs with
  | [] => Some started
  | StartBodyRUpdate :: rest => body_reads true rest
  | GetBodyR :: rest => if started then body_reads started rest else None
  | _ :: rest => body_reads started rest
  end.

(** The variables an iteration reads before it writes them. *)
Definition core (s : Vars)
    : ctrl_state_type * time_point * time_point * Matrix3d * Matrix3d :=
  (cur_ctrl_state s, state_enter_time s, prev_time s, balance_body_R s,
   control_R s).

(** An input with another state of the quit button. *)
Definition with_quit_button (b : bool) (i : TickIn) : TickIn :=
  mkTickIn (clock_wake i) (clock_now i) (clock_state i) (clock_enter i)
           b (translation_velocity i) (rotation_velocity i)
           (right_vert_raw i) (left_vert_raw i) (finished i) (body_R i).

(** The events of an iteration that are calls on the robot. *)
Definition robot_call (e : Event) : bool :=
  match e with
  | SleepFor _ | InputUpdate | AppExit | PrintRunTime _ | PrintAxes _ _ =>
      false
  | _ => true
  end.

(** Determinant, and what makes a matrix a rotation. *)
Definition det (m : Matrix3d) : R :=
  (m00 m * (m11 m * m22 m - m12 m * m21 m)
   - m01 m * (m10 m * m22 m - m12 m * m20 m)
   + m02 m * (m10 m * m21 m - m11 m * m20 m))%R.

Definition proper_rotation (m : Matrix3d) : Prop :=
  mmul m (transpose m) = Identity /\ det m = 1%R.

(** The inputs of the loop bodies a schedule executes, in order. *)
Fixpoint bodies (ms : list Move) (w : World) : list TickIn :=
  match ms with
  | [] => []
  | m :: rest =>
      match step m w with
      | None => []
      | Some w' =>
          match m, thread_at w with
          | ThreadMove i, InBody => i :: bodies rest w'
          | _, _ => bodies rest w'
          end
      end
  end.

End Flow.

(** ** The start of [main], up to the control thread *)

Module Startup.

(** What the start of [main] prints and calls. *)
Inductive Output : Type :=
  | CouldNotFind      (* "Could not find input joystick." *)
  | Reset             (* InputManagerMobileIO::reset() *)
  | Found.            (* "Found input joystick -- starting control program." *)

(** [bool is_quiet{}]. *)
Definition is_quiet : bool := false.

(** The [if]: [input->isConnected()] is called only when [quiet] is
    false.  The result is what is printed and how many calls were made;
    [connected k] is the answer of the [k]-th call. *)
Definition announce (quiet : bool) (connected : nat -> bool)
    : list Output * nat :=
  if negb quiet
  then (if negb (connected 0%nat) then [CouldNotFind] else [], 1%nat)
  else ([], 0%nat).

(** The [while (quiet && !input->isConnected()) reset();] from the [k]-th
    call on, for at most [fuel] rounds. *)
Fixpoint retry (fuel : nat) (quiet : bool) (connected : nat -> bool)
    (k : nat) : option (list Output) :=
  if quiet then
    if negb (connected k) then
      match fuel with
      | O => None
      | S fuel' =>
          match retry fuel' quiet connected (S k) with
          | Some out => Some (Reset :: out)
          | None => None
          end
      end
    else Some []
  else Some [].

(** INIT STEP 2 of [main] and the line after it. *)
Definition startup (fuel : nat) (quiet : bool) (connected : nat -> bool)
    : option (list Output) :=
  let a := announce quiet connected in
  match retry fuel quiet connected (snd a) with
  | Some out => Some (fst a ++ out ++ [Found])
  | None => None
  end.

(** An input that answers at the fourth call. *)
Definition connected_at_3 (k : nat) : bool := (3 <=? k)%nat.

End Startup.

(** ** The 6-DoF arm example (basic/07b_robot_6_dof_arm.cpp)

    [getGroup], [executeTrajectory] and [main].  The HEBI API is outside
    the program: what its calls answer is an [Env], and the calls made are
    recorded as [Event]s.  Times of [system_clock] are integer nanoseconds,
    as are the durations the trajectories report. *)

Module Arm.
Import Eigen.

(** An [Eigen::VectorXd] of joint values. *)
Definition JointVec : Type := list R.

(** What [Trajectory::createUnconstrainedQp(time, waypoints)] is given: the
    two times, in seconds, and the two columns of [waypoints]. *)
Record Trajectory : Type := mkTrajectory {
  time : Z * Z;
  from : JointVec;
  to : JointVec
}.

Inductive Event : Type :=
  | GetGroupFromNames
  | ReadGains
  | SendGains
  | PrintGroupNotFound
  | LoadHRDF
  | PrintNoHRDF
  | SolveIK (xyz : Vector3d)
  | StartLog
  | GetNextFeedback
  | CreateTrajectory (tr : Trajectory)
  | GetMasses
  | GetState (t : Z)
  | SendCommand (pos vel eff : JointVec)
  | StopLog.

(** The answers of the HEBI API and of the clock. *)
Record Env : Type := mkEnv {
  group_found : bool;     (* lookup.getGroupFromNames gives a group *)
  gains_read : bool;      (* gains_command.readGains *)
  gains_acked : bool;     (* group->sendCommandWithAcknowledgement *)
  model_loaded : bool;    (* RobotModel::loadHRDF gives a model *)
  solveIK : JointVec -> Matrix3d -> Vector3d -> JointVec -> JointVec;
                          (* seed, orientation, position, ik_res_angles
                             before the call: ik_res_angles after it *)
  position : nat -> JointVec;   (* feedback.getPosition() after the k-th
                                   getNextFeedback *)
  efforts : nat -> JointVec;    (* GravityCompensation::getEfforts on it *)
  now : nat -> Z;               (* the k-th system_clock::now() *)
  getDuration : Trajectory -> Z;
  getState : Trajectory -> Z -> JointVec * JointVec * JointVec
}.

(** Clock reads and feedback requests made so far, and the events. *)
Record Sys : Type := mkSys {
  reads : nat;
  feedbacks : nat;
  log : list Event
}.

Definition emit (evs : list Event) (st : Sys) : Sys :=
  mkSys (reads st) (feedbacks st) (log st ++ evs).

(** [getGroup]: whether a group is returned, and the calls made. *)
Definition getGroup (env : Env) : bool * list Event :=
  if group_found env then
    if gains_read env then
      (gains_acked env, [GetGroupFromNames; ReadGains; SendGains])
    else (false, [GetGroupFromNames; ReadGains])
  else (false, [GetGroupFromNames]).

(** One round of the [while] of [executeTrajectory]. *)
Definition command_round (env : Env) (traj : Trajectory) (start : Z)
    (st : Sys) : Z * Sys :=
  let k := feedbacks st in
  let t := now env (reads st) - start in
  let s := getState env traj t in
  (t, mkSys (S (reads st)) (S k)
            (log st ++ [GetNextFeedback; GetState t;
                        SendCommand (fst (fst s)) (snd (fst s))
                                    (efforts env k)])).

(** The [while (t.count() < duration)], for at most [fuel] rounds. *)
Fixpoint command_loop (fuel : nat) (env : Env) (traj : Trajectory)
    (start duration t : Z) (st : Sys) : option Sys :=
  if t <? duration then
    match fuel with
    | O => None
    | S fuel' =>
        let r := command_round env traj start st in
        command_loop fuel' env traj start duration (fst r) (snd r)
    end
  else Some st.

(** [executeTrajectory]. *)
Definition executeTrajectory (fuel : nat) (env : Env) (traj : Trajectory)
    (st : Sys) : option Sys :=
  let duration := getDuration env traj in
  let start := now env (reads st) in
  let t := now env (S (reads st)) - start in
  command_loop fuel env traj start duration t
    (mkSys (S (S (reads st))) (feedbacks st) (log st ++ [GetMasses])).

(** The corners of the box, [rotation_target] and [elbow_up_angles]. *)
Definition xyz_targets : list Vector3d :=
  [mkVector3d 0.40 0.20 0.10; mkVector3d 0.40 0.20 0.50;
   mkVector3d 0.40 (-0.20) 0.50; mkVector3d 0.40 (-0.20) 0.10]%R.

Definition rotation_target : Matrix3d :=
  toRotationMatrix (mkAngleAxisd (PI / 2) UnitY).

Definition elbow_up_angles : JointVec :=
  [0; PI / 4; PI / 2; PI / 4; - PI; PI / 2]%R.

(** The first loop of [main]: one [solveIK] per target, each result also
    being the [ik_res_angles] the next call starts with. *)
Fixpoint solve_targets (env : Env) (targets : list Vector3d)
    (ik_res_angles : JointVec) : list JointVec :=
  match targets with
  | [] => []
  | xyz :: rest =>
      let r := solveIK env elbow_up_angles rotation_target xyz ik_res_angles in
      r :: solve_targets env rest r
  end.

(** [joint_targets]: the solutions, and the first one again at the end. *)
Definition joint_targets (env : Env) (targets : list Vector3d)
    : list JointVec :=
  let js := solve_targets env targets [] in
  js ++ [nth 0 js []].

(** The pairs [(col, col + 1)] of the last loop of [main]. *)
Definition segments (jt : list JointVec) : list (JointVec * JointVec) :=
  combine (removelast jt) (tl jt).

(** The last loop of [main]: a three second move per segment. *)
Fixpoint run_segments (fuel : nat) (env : Env)
    (segs : list (JointVec * JointVec)) (st : Sys) : option Sys :=
  match segs with
  | [] => Some st
  | seg :: rest =>
      let traj := mkTrajectory (0, 3) (fst seg) (snd seg) in
      match executeTrajectory fuel env traj
              (emit [CreateTrajectory traj] st) with
      | Some st' => run_segments fuel env rest st'
      | None => None
      end
  end.

(** [main] over a list of targets: the return value and the events. *)
Definition main_on (targets : list Vector3d) (fuel : nat) (env : Env)
    : option (Z * list Event) :=
  let g := getGroup env in
  if negb (fst g) then Some (-1, snd g ++ [PrintGroupNotFound])
  else if negb (model_loaded env)
  then Some (-1, snd g ++ [LoadHRDF; PrintNoHRDF])
  else
    let jt := joint_targets env targets in
    let first := mkTrajectory (0, 5) (position env 0) (nth 0 jt []) in
    let st0 :=
      mkSys 0 1 (snd g ++ [LoadHRDF] ++ map SolveIK targets ++
                 [StartLog; GetNextFeedback; CreateTrajectory first]) in
    match executeTrajectory fuel env first st0 with
    | None => None
    | Some st1 =>
        match run_segments fuel env (segments jt) st1 with
        | None => None
        | Some st2 => Some (0, log st2 ++ [StopLog])
        end
    end.

Definition main (fuel : nat) (env : Env) : option (Z * list Event) :=
  main_on xyz_targets fuel env.

(** *** Vocabulary of the statements *)

(** The trajectories [main] asks for, in order. *)
Definition plan (env : Env) (targets : list Vector3d) : list Trajectory :=
  let jt := joint_targets env targets in
  mkTrajectory (0, 5) (position env 0) (nth 0 jt []) ::
  map (fun seg => mkTrajectory (0, 3) (fst seg) (snd seg)) (segments jt).

(** The trajectories created in a list of events, and the sample times. *)
Fixpoint created (evs : list Event) : list Trajectory :=
  match evs with
  | [] => []
  | CreateTrajectory tr :: rest => tr :: created rest
  | _ :: rest => created rest
  end.

Fixpoint sampled (evs : list Event) : list Z :=
  match evs with
  | [] => []
  | GetState t :: rest => t :: sampled rest
  | _ :: rest => sampled rest
  end.

Definition is_command (e : Event) : bool :=
  match e with
  | SendCommand _ _ _ => true
  | _ => false
  end.

(** The events of the [j]-th round of a [while] that started with [r]
    clock reads and [k] feedback requests made. *)
Definition round_events (env : Env) (traj : Trajectory) (start : Z)
    (r k j : nat) : list Event :=
  let t := now env (r + j) - start in
  let s := getState env traj t in
  [GetNextFeedback; GetState t;
   SendCommand (fst (fst s)) (snd (fst s)) (efforts env (k + j))].

(** The state after [n] rounds. *)
Definition after_rounds (env : Env) (traj : Trajectory) (start : Z)
    (n : nat) (st : Sys) : Sys :=
  mkSys (reads st + n) (feedbacks st + n)
        (log st ++
         flat_map (round_events env traj start (reads st) (feedbacks st))
                  (seq 0 n)).

(** The [n]-th clock read of a [while] is the first one at or past the
    end of the trajectory. *)
Definition first_past (env : Env) (start duration : Z) (r n : nat) : Prop :=
  (forall j, (j < n)%nat -> now env (r + j) - start < duration) /\
  duration <= now env (r + n) - start.

(** Each trajectory of the list starts where the one before it ends. *)
Fixpoint chained (l : list Trajectory) : Prop :=
  match l with
  | a :: ((b :: _) as rest) => to a = from b /\ chained rest
  | _ => True
  end.


(** All four checks of the start of [main] pass. *)
Definition all_found (env : Env) : bool :=
  group_found env && gains_read env && gains_acked env && model_loaded env.

(** An environment where everything succeeds, the clock advances one
    second per read, and a trajectory lasts as long as its times say. *)
Definition env0 : Env :=
  mkEnv true true true true
        (fun seed rot xyz prev => [vx xyz; vy xyz; vz xyz])
        (fun _ => []) (fun _ => [])
        (fun k => Z.of_nat k * 1000000000)
        (fun tr => (snd (time tr) - fst (time tr)) * 1000000000)
        (fun tr t => ([], [], [])).

(** The same, without a model file. *)
Definition env_no_model : Env :=
  mkEnv true true true false (solveIK env0) (position env0) (efforts env0)
        (now env0) (getDuration env0) (getState env0).

End Arm.

(** * Properties of the control loop *)

Module ControlFacts.
Import Eigen Control.

(** ** The thresholds on binary64 *)

(** At the two thresholds the comparison on [double] and the comparison of
    nanosecond counts agree: the first count that passes is 1900000000,
    resp. 500000000. *)
Example thresholds_on_double :
  Binary64.reached_double Binary64.startup_seconds_double startup_seconds = true /\
  Binary64.reached_double Binary64.startup_seconds_double (startup_seconds - 1) = false /\
  Binary64.reached_double Binary64.leg_swing_time_double leg_swing_time = true /\
  Binary64.reached_double Binary64.leg_swing_time_double (leg_swing_time - 1) = false.
Proof. repeat split; vm_compute; reflexivity. Qed.

(** ** Small runs *)

Example need_to_wait_examples :
  need_to_wait 0 1200000 = 3 /\ need_to_wait 0 5000000 = 0 /\
  need_to_wait 0 55000000 = 0.
Proof. repeat split; reflexivity. Qed.

Example to_int_wraps : to_int (2 ^ 31) = - 2 ^ 31 /\ to_int (-5) = -5.
Proof. split; reflexivity. Qed.

Example first_iteration :
  snd (tick (at_time (tick_instant 1) input0) (vars0 QUAD_CTRL_STAND_UP1))
  = [SleepFor 0; InputUpdate; SpreadAllLegs] /\
  cur_ctrl_state
    (fst (tick (at_time (tick_instant 1) input0) (vars0 QUAD_CTRL_STAND_UP1)))
  = QUAD_CTRL_STAND_UP1.
Proof. split; reflexivity. Qed.

Example iteration_380_leaves_phase_1 :
  trajectory (sim_inputs (fun _ => input0) 379 2)
             (set_state_enter_time 0 (vars0 QUAD_CTRL_STAND_UP1))
  = [QUAD_CTRL_STAND_UP1; QUAD_CTRL_STAND_UP2].
Proof. reflexivity. Qed.

(** ** Runs *)

Lemma run_app (a b : list TickIn) (s : Vars) :
  run (a ++ b) s =
  (fst (run b (fst (run a s))), snd (run a s) ++ snd (run b (fst (run a s)))).
Proof.
  revert s. induction a as [|i a IH]; intros s; simpl.
  - destruct (run b s); reflexivity.
  - rewrite IH. simpl. rewrite app_assoc. reflexivity.
Qed.

Lemma final_app (a b : list TickIn) (s : Vars) :
  final (a ++ b) s = final b (final a s).
Proof. unfold final. rewrite run_app. reflexivity. Qed.

Lemma final_cons (i : TickIn) (a : list TickIn) (s : Vars) :
  final (i :: a) s = final a (fst (tick i s)).
Proof. reflexivity. Qed.

Lemma trace_cons (i : TickIn) (a : list TickIn) (s : Vars) :
  trace (i :: a) s = snd (tick i s) ++ trace a (fst (tick i s)).
Proof. reflexivity. Qed.

Lemma trajectory_cons (i : TickIn) (a : list TickIn) (s : Vars) :
  trajectory (i :: a) s =
  cur_ctrl_state (fst (tick i s)) :: trajectory a (fst (tick i s)).
Proof. reflexivity. Qed.

Lemma final_one (i : TickIn) (s : Vars) : final [i] s = fst (tick i s).
Proof. reflexivity. Qed.

Lemma sim_inputs_one (env : nat -> TickIn) (k : nat) :
  sim_inputs env k 1 = [at_time (tick_instant k) (env k)].
Proof. reflexivity. Qed.

Lemma sim_inputs_app (env : nat -> TickIn) (n m k : nat) :
  sim_inputs env k (n + m) = sim_inputs env k n ++ sim_inputs env (k + n) m.
Proof.
  revert k. induction n as [|n IH]; intros k; simpl.
  - rewrite Nat.add_0_r. reflexivity.
  - rewrite IH. replace (S k + n)%nat with (k + S n)%nat by lia. reflexivity.
Qed.

(** ** One iteration in a stand-up phase *)

Lemma tick_stand_up_state (i : TickIn) (s : Vars) (c' : ctrl_state_type) :
  stand_up_next (cur_ctrl_state s) = Some c' ->
  cur_ctrl_state (fst (tick i s)) =
    (if stand_up_due i s then c' else cur_ctrl_state s).
Proof.
  unfold tick, dispatch, stand_up_due. simpl.
  destruct (cur_ctrl_state s) eqn:E; simpl; intros H; inversion H; subst;
    destruct (startup_seconds <=? clock_state i - state_enter_time s);
    simpl; auto.
Qed.

Lemma tick_stand_up_enter (i : TickIn) (s : Vars) (c' : ctrl_state_type) :
  stand_up_next (cur_ctrl_state s) = Some c' ->
  state_enter_time (fst (tick i s)) =
    (if stand_up_due i s then clock_enter i else state_enter_time s).
Proof.
  unfold tick, dispatch, stand_up_due. simpl.
  destruct (cur_ctrl_state s) eqn:E; simpl; intros H; inversion H; subst;
    destruct (startup_seconds <=? clock_state i - state_enter_time s);
    simpl; auto.
Qed.

Lemma tick_stand_up_flag (i : TickIn) (s : Vars) (c' : ctrl_state_type) :
  stand_up_next (cur_ctrl_state s) = Some c' ->
  isFinished (fst (tick i s)) = finished i.
Proof.
  unfold tick, dispatch. simpl.
  destruct (cur_ctrl_state s) eqn:E; simpl; intros H; inversion H; subst;
    destruct (startup_seconds <=? clock_state i - state_enter_time s);
    simpl; auto.
Qed.

Lemma tick_stand_up3_target (i : TickIn) (s : Vars) :
  cur_ctrl_state s = QUAD_CTRL_STAND_UP3 ->
  stand_up_due i s = true ->
  balance_body_R (fst (tick i s)) = body_R i.
Proof.
  unfold tick, dispatch, stand_up_due. simpl. intros -> H.
  simpl. rewrite H. reflexivity.
Qed.

(** ** The stand-up phases under the simulated clock *)

Lemma stand_up_stays (env : nat -> TickIn) (c c' : ctrl_state_type) (n : nat) :
  stand_up_next c = Some c' ->
  forall (k : nat) (s : Vars),
    cur_ctrl_state s = c ->
    tick_instant (k + n) - state_enter_time s <= startup_seconds ->
    cur_ctrl_state (final (sim_inputs env k n) s) = c /\
    state_enter_time (final (sim_inputs env k n) s) = state_enter_time s.
Proof.
  intros Hc. induction n as [|n IH]; intros k s Hs Hlate.
  - split; [exact Hs | reflexivity].
  - simpl sim_inputs. rewrite final_cons.
    assert (Hnot : stand_up_due (at_time (tick_instant k) (env k)) s = false).
    { unfold stand_up_due. cbn [clock_state at_time]. apply Z.leb_gt.
      unfold tick_instant, interval_ms, ns_per_ms in *. lia. }
    assert (Hc' : stand_up_next (cur_ctrl_state s) = Some c')
      by (rewrite Hs; exact Hc).
    pose proof (tick_stand_up_state (at_time (tick_instant k) (env k)) s c' Hc') as H1.
    pose proof (tick_stand_up_enter (at_time (tick_instant k) (env k)) s c' Hc') as H2.
    rewrite Hnot in H1, H2.
    destruct (IH (S k) (fst (tick (at_time (tick_instant k) (env k)) s)))
      as [IH1 IH2].
    + rewrite H1. exact Hs.
    + rewrite H2. replace (S k + n)%nat with (k + S n)%nat by lia. exact Hlate.
    + split; [exact IH1 | rewrite IH2; exact H2].
Qed.

(** A whole phase: entered at the instant of iteration [k], it is left by
    iteration [k + 380], not before. *)
Lemma stand_up_phase (env : nat -> TickIn) (c c' : ctrl_state_type)
    (k : nat) (s : Vars) :
  stand_up_next c = Some c' ->
  cur_ctrl_state s = c ->
  state_enter_time s = tick_instant k ->
  let s' := final (sim_inputs env (S k) 380) s in
  cur_ctrl_state s' = c' /\ state_enter_time s' = tick_instant (k + 380) /\
  (c = QUAD_CTRL_STAND_UP3 -> balance_body_R s' = body_R (env (k + 380)%nat)) /\
  (forall n, (n < 380)%nat ->
     cur_ctrl_state (final (sim_inputs env (S k) n) s) = c).
Proof.
  intros Hc Hs He.
  assert (Hstay : forall n, (n < 380)%nat ->
            cur_ctrl_state (final (sim_inputs env (S k) n) s) = c /\
            state_enter_time (final (sim_inputs env (S k) n) s) = tick_instant k).
  { intros n Hn. rewrite <- He. apply (stand_up_stays env c c' n Hc (S k) s Hs).
    rewrite He. unfold tick_instant, startup_seconds, interval_ms, ns_per_ms. lia. }
  destruct (Hstay 379%nat ltac:(lia)) as [H1 H2].
  set (s1 := final (sim_inputs env (S k) 379) s) in *.
  set (i := at_time (tick_instant (S k + 379)) (env (S k + 379)%nat)).
  assert (E : final (sim_inputs env (S k) 380) s = fst (tick i s1)).
  { change 380%nat with (379 + 1)%nat.
    rewrite sim_inputs_app, final_app, sim_inputs_one, final_one.
    reflexivity. }
  assert (Hdue : stand_up_due i s1 = true).
  { unfold stand_up_due, i. cbn [clock_state at_time]. rewrite H2.
    apply Z.leb_le.
    unfold tick_instant, startup_seconds, interval_ms, ns_per_ms. lia. }
  assert (Hc1 : stand_up_next (cur_ctrl_state s1) = Some c')
    by (rewrite H1; exact Hc).
  cbv zeta. rewrite E.
  rewrite (tick_stand_up_state i s1 c' Hc1), (tick_stand_up_enter i s1 c' Hc1), Hdue.
  repeat split.
  - unfold i. cbn [clock_enter at_time]. f_equal. lia.
  - intros ->. rewrite (tick_stand_up3_target i s1 H1 Hdue). unfold i.
    cbn [body_R at_time]. do 2 f_equal. lia.
  - intros n Hn. apply Hstay. exact Hn.
Qed.

(** ** The stand-up sequence *)

(** C1.  In each of the three stand-up phases an iteration leaves the phase
    exactly when the time since the phase was entered has reached
    [startup_seconds], and it then records a fresh entry time; otherwise
    phase and entry time are kept.  With the first entry time at 0 and
    iterations 5 ms apart, the phases end at iterations 380, 760 and 1140:
    after 3 x 1.9 s the loop is in the passive-orientation state, not
    before, and the balance target is the body orientation read in the
    iteration that made the last transition. *)
Theorem stand_up_reaches_passive_balance :
  (forall (i : TickIn) (s : Vars) (c' : ctrl_state_type),
     stand_up_next (cur_ctrl_state s) = Some c' ->
     let s' := fst (tick i s) in
     let elapsed := clock_state i - state_enter_time s in
     (startup_seconds <= elapsed ->
        cur_ctrl_state s' = c' /\ state_enter_time s' = clock_enter i) /\
     (elapsed < startup_seconds ->
        cur_ctrl_state s' = cur_ctrl_state s /\
        state_enter_time s' = state_enter_time s)) /\
  tick_instant 1140 = 3 * startup_seconds /\
  (forall (env : nat -> TickIn) (s : Vars),
     cur_ctrl_state s = QUAD_CTRL_STAND_UP1 ->
     state_enter_time s = 0 ->
     let after (n : nat) := final (sim_inputs env 1 n) s in
     cur_ctrl_state (after 1140%nat) = QUAD_CTRL_PASSIVE_ORIENT /\
     balance_body_R (after 1140%nat) = body_R (env 1140%nat) /\
     state_enter_time (after 1140%nat) = 3 * startup_seconds /\
     (forall n, (n < 380)%nat ->
        cur_ctrl_state (after n) = QUAD_CTRL_STAND_UP1) /\
     (forall n, (380 <= n < 760)%nat ->
        cur_ctrl_state (after n) = QUAD_CTRL_STAND_UP2) /\
     (forall n, (760 <= n < 1140)%nat ->
        cur_ctrl_state (after n) = QUAD_CTRL_STAND_UP3)).
Proof.
  split; [|split].
  - intros i s c' Hc. cbv zeta.
    rewrite (tick_stand_up_state i s c' Hc), (tick_stand_up_enter i s c' Hc).
    unfold stand_up_due. split; intros H.
    + apply Z.leb_le in H. rewrite H. split; reflexivity.
    + apply Z.leb_gt in H. rewrite H. split; reflexivity.
  - reflexivity.
  - intros env s Hs He. cbv zeta.
    destruct (stand_up_phase env _ _ 0 s (eq_refl : stand_up_next
                QUAD_CTRL_STAND_UP1 = Some QUAD_CTRL_STAND_UP2) Hs He)
      as (A1 & A2 & _ & A4).
    set (s1 := final (sim_inputs env 1 380) s) in *.
    destruct (stand_up_phase env _ _ 380 s1 (eq_refl : stand_up_next
                QUAD_CTRL_STAND_UP2 = Some QUAD_CTRL_STAND_UP3) A1 A2)
      as (B1 & B2 & _ & B4).
    set (s2 := final (sim_inputs env 381 380) s1) in *.
    destruct (stand_up_phase env _ _ 760 s2 (eq_refl : stand_up_next
                QUAD_CTRL_STAND_UP3 = Some QUAD_CTRL_PASSIVE_ORIENT) B1 B2)
      as (C1 & C2 & C3 & C4).
    assert (E2 : forall m, final (sim_inputs env 1 (380 + m)) s
                           = final (sim_inputs env 381 m) s1).
    { intros m. rewrite sim_inputs_app, final_app. reflexivity. }
    assert (E3 : forall m, final (sim_inputs env 1 (760 + m)) s
                           = final (sim_inputs env 761 m) s2).
    { intros m. replace (760 + m)%nat with (380 + (380 + m))%nat by lia.
      rewrite E2, sim_inputs_app, final_app. reflexivity. }
    replace 1140%nat with (760 + 380)%nat by reflexivity.
    rewrite E3. repeat split.
    + exact C1.
    + apply C3. reflexivity.
    + rewrite C2. reflexivity.
    + exact A4.
    + intros n Hn. replace n with (380 + (n - 380))%nat by lia.
      rewrite E2. apply B4. lia.
    + intros n Hn. replace n with (760 + (n - 760))%nat by lia.
      rewrite E3. apply C4. lia.
Qed.

Lemma stand_up_reaches_passive_balance_witness :
  cur_ctrl_state (final (sim_inputs (fun _ => input0) 1 1140)
                        (vars0 QUAD_CTRL_STAND_UP1))
  = QUAD_CTRL_PASSIVE_ORIENT.
Proof.
  destruct stand_up_reaches_passive_balance as (_ & _ & H).
  destruct (H (fun _ => input0) (vars0 QUAD_CTRL_STAND_UP1)
              eq_refl eq_refl) as (H1 & _).
  exact H1.
Defined.

(** C8.  In a stand-up phase the result of the phase's call
    ([spreadAllLegs], [pushAllLegs], [prepareQuadMode]) is stored in
    [isFinished] in every iteration and the call is made, but the next
    control state and entry time are the same whatever that result is: the
    phase is left if and only if the time since its entry has reached
    [startup_seconds]. *)
Theorem stand_up_transition_ignores_isFinished :
  forall (i : TickIn) (s : Vars) (c' : ctrl_state_type) (b : bool),
    stand_up_next (cur_ctrl_state s) = Some c' ->
    let elapsed := clock_state i - state_enter_time s in
    let s' := fst (tick (with_finished b i) s) in
    isFinished s' = b /\
    (exists e, stand_up_call (cur_ctrl_state s) elapsed = Some e /\
               In e (snd (tick (with_finished b i) s))) /\
    cur_ctrl_state s' = cur_ctrl_state (fst (tick i s)) /\
    state_enter_time s' = state_enter_time (fst (tick i s)) /\
    snd (tick (with_finished b i) s) = snd (tick i s) /\
    (cur_ctrl_state s' = c' <-> startup_seconds <= elapsed) /\
    (cur_ctrl_state s' = cur_ctrl_state s <-> elapsed < startup_seconds).
Proof.
  intros i s c' b Hc. cbv zeta.
  assert (Hne : c' <> cur_ctrl_state s).
  { destruct (cur_ctrl_state s); inversion Hc; subst; discriminate. }
  split; [exact (tick_stand_up_flag (with_finished b i) s c' Hc)|].
  split.
  { unfold tick, dispatch. simpl.
    destruct (cur_ctrl_state s) eqn:E; inversion Hc; subst; simpl;
      destruct (startup_seconds <=? clock_state i - state_enter_time s);
      simpl; eexists; (split; [reflexivity|]); simpl;
      destruct (quit_button i); simpl; auto. }
  rewrite !(tick_stand_up_state _ s c' Hc), !(tick_stand_up_enter _ s c' Hc).
  unfold stand_up_due. simpl.
  split; [reflexivity|]. split; [reflexivity|].
  split.
  { unfold tick, dispatch. simpl.
    destruct (cur_ctrl_state s); inversion Hc; subst; simpl;
      destruct (startup_seconds <=? clock_state i - state_enter_time s);
      reflexivity. }
  destruct (Z.leb_spec startup_seconds (clock_state i - state_enter_time s));
    split; split; intros; try lia; try reflexivity; try congruence.
Qed.

Lemma stand_up_transition_ignores_isFinished_witness :
  cur_ctrl_state (fst (tick (with_finished true input0)
                            (vars0 QUAD_CTRL_STAND_UP2)))
  = cur_ctrl_state (fst (tick input0 (vars0 QUAD_CTRL_STAND_UP2))).
Proof.
  destruct (stand_up_transition_ignores_isFinished input0
              (vars0 QUAD_CTRL_STAND_UP2) QUAD_CTRL_STAND_UP3 true eq_refl)
    as (_ & _ & H & _).
  exact H.
Defined.

(** ** The alternating gait *)

Lemma tick_gait (i : TickIn) (s : Vars) (m m' : SwingMode)
    (c' : ctrl_state_type) :
  gait_row (cur_ctrl_state s) = Some (m, c', m') ->
  let run := RunTest m (clock_state i - state_enter_time s) leg_swing_time in
  cur_ctrl_state (fst (tick i s)) =
    (if gait_due i s then c' else cur_ctrl_state s) /\
  state_enter_time (fst (tick i s)) =
    (if gait_due i s then clock_enter i else state_enter_time s) /\
  snd (tick i s) =
    preamble i s ++
    (if gait_due i s then [run; PrepareTrajectories m' leg_swing_time]
     else [run]).
Proof.
  unfold tick, dispatch, gait_due, preamble. simpl.
  destruct (cur_ctrl_state s) eqn:E; simpl; intros H; inversion H; subst;
    destruct (leg_swing_time <=? clock_state i - state_enter_time s);
    simpl; auto.
Qed.

(** Whatever the state, one iteration advances the swing of at most one
    group. *)
Lemma tick_one_group (i : TickIn) (s : Vars) :
  group_swinging swing_mode_virtualLeg1 (snd (tick i s)) &&
  group_swinging swing_mode_virtualLeg2 (snd (tick i s)) = false.
Proof.
  unfold tick, dispatch, group_swinging. simpl.
  destruct (quit_button i), (cur_ctrl_state s); simpl;
    repeat match goal with
           | |- context [if ?b then _ else _] => destruct b; simpl
           end; reflexivity.
Qed.

(** Under the 5 ms clock the gait states swap every 100 iterations. *)
Lemma gait_under_clock (env : nat -> TickIn) (s : Vars) :
  cur_ctrl_state s = QUAD_CTRL_NORMAL_LEFT ->
  state_enter_time s = 0 ->
  forall n : nat,
    let s' := final (sim_inputs env 1 n) s in
    cur_ctrl_state s' =
      (if Nat.even (n / 100) then QUAD_CTRL_NORMAL_LEFT
       else QUAD_CTRL_NORMAL_RIGHT) /\
    state_enter_time s' = tick_instant (100 * (n / 100)).
Proof.
  intros Hs He n. cbv zeta. induction n as [|n [IH1 IH2]].
  - split; [exact Hs | exact He].
  - replace (S n) with (n + 1)%nat at 1 3 by lia.
    rewrite sim_inputs_app, final_app, sim_inputs_one, final_one.
    set (s1 := final (sim_inputs env 1 n) s) in *.
    set (i := at_time (tick_instant (1 + n)) (env (1 + n)%nat)).
    assert (Hrow : exists m m' c',
               gait_row (cur_ctrl_state s1) = Some (m, c', m') /\
               c' = (if Nat.even (n / 100) then QUAD_CTRL_NORMAL_RIGHT
                     else QUAD_CTRL_NORMAL_LEFT)).
    { rewrite IH1. destruct (Nat.even (n / 100)); simpl; eauto. }
    destruct Hrow as (m & m' & c' & Hrow & Hc').
    destruct (tick_gait i s1 m m' c' Hrow) as (T1 & T2 & _).
    rewrite T1, T2. unfold gait_due, i. cbn [clock_state clock_enter at_time].
    rewrite IH2.
    assert (Hdiv : (n mod 100 = 99 /\ S n / 100 = S (n / 100) \/
                    n mod 100 < 99 /\ S n / 100 = n / 100)%nat).
    { pose proof (Nat.div_mod_eq n 100).
      pose proof (Nat.mod_upper_bound n 100 ltac:(lia)).
      pose proof (Nat.div_mod_eq (S n) 100).
      pose proof (Nat.mod_upper_bound (S n) 100 ltac:(lia)).
      lia. }
    pose proof (Nat.div_mod_eq n 100) as Hn.
    destruct Hdiv as [[Hm Hd] | [Hm Hd]]; rewrite Hd.
    + replace (leg_swing_time <=? _) with true.
      * rewrite Nat.even_succ, <- Nat.negb_even, Hc'.
        split; [destruct (Nat.even (n / 100)); reflexivity|].
        f_equal. lia.
      * symmetry. apply Z.leb_le.
        unfold tick_instant, leg_swing_time, interval_ms, ns_per_ms. lia.
    + replace (leg_swing_time <=? _) with false.
      * split; [exact IH1 | reflexivity].
      * symmetry. apply Z.leb_gt.
        unfold tick_instant, leg_swing_time, interval_ms, ns_per_ms. lia.
Qed.

(** C2.  In a gait state every iteration calls [runTest] for that state's
    group with the time since the state was entered; once that time has
    reached [leg_swing_time] the same iteration moves to the other gait
    state, records a fresh entry time and prepares the other group's
    trajectories, and before that it stays.  From a gait state only gait
    states are ever reached, under the 5 ms clock they swap every 100
    iterations without end, and no iteration, in any state, advances the
    swing of both groups. *)
Theorem steady_gait_alternates :
  (forall (i : TickIn) (s : Vars) (m m' : SwingMode) (c' : ctrl_state_type),
     gait_row (cur_ctrl_state s) = Some (m, c', m') ->
     let elapsed := clock_state i - state_enter_time s in
     let s' := fst (tick i s) in
     let run := RunTest m elapsed leg_swing_time in
     (leg_swing_time <= elapsed ->
        cur_ctrl_state s' = c' /\ state_enter_time s' = clock_enter i /\
        snd (tick i s) =
          preamble i s ++ [run; PrepareTrajectories m' leg_swing_time]) /\
     (elapsed < leg_swing_time ->
        cur_ctrl_state s' = cur_ctrl_state s /\
        state_enter_time s' = state_enter_time s /\
        snd (tick i s) = preamble i s ++ [run])) /\
  (forall (ins : list TickIn) (s : Vars),
     gait_row (cur_ctrl_state s) <> None ->
     gait_row (cur_ctrl_state (final ins s)) <> None) /\
  (forall (env : nat -> TickIn) (s : Vars) (n : nat),
     cur_ctrl_state s = QUAD_CTRL_NORMAL_LEFT ->
     state_enter_time s = 0 ->
     cur_ctrl_state (final (sim_inputs env 1 n) s) =
       (if Nat.even (n / 100) then QUAD_CTRL_NORMAL_LEFT
        else QUAD_CTRL_NORMAL_RIGHT)) /\
  (forall (i : TickIn) (s : Vars),
     group_swinging swing_mode_virtualLeg1 (snd (tick i s)) &&
     group_swinging swing_mode_virtualLeg2 (snd (tick i s)) = false).
Proof.
  split; [|split; [|split]].
  - intros i s m m' c' Hrow. cbv zeta.
    destruct (tick_gait i s m m' c' Hrow) as (T1 & T2 & T3).
    rewrite T1, T2, T3. unfold gait_due. split; intros H.
    + apply Z.leb_le in H. rewrite H. repeat split.
    + apply Z.leb_gt in H. rewrite H. repeat split.
  - intros ins. induction ins as [|i ins IH]; intros s Hs.
    + exact Hs.
    + rewrite final_cons. apply IH.
      destruct (gait_row (cur_ctrl_state s)) as [[[m c'] m']|] eqn:Hrow;
        [|congruence].
      destruct (tick_gait i s m m' c' Hrow) as (T1 & _). rewrite T1.
      destruct (gait_due i s); [|rewrite Hrow; discriminate].
      destruct (cur_ctrl_state s); inversion Hrow; subst; discriminate.
  - intros env s n Hs He. apply (gait_under_clock env s Hs He n).
  - exact tick_one_group.
Qed.

Lemma steady_gait_alternates_witness :
  cur_ctrl_state (final (sim_inputs (fun _ => input0) 1 250)
                        (vars0 QUAD_CTRL_NORMAL_LEFT))
  = QUAD_CTRL_NORMAL_LEFT.
Proof.
  destruct steady_gait_alternates as (_ & _ & H & _).
  exact (H (fun _ => input0) (vars0 QUAD_CTRL_NORMAL_LEFT) 250%nat
           eq_refl eq_refl).
Defined.

(** ** The velocity commands *)

(** An iteration started from a store with the velocity variables blanked,
    on an input with the velocity reads blanked, does what the real one
    does, up to those two variables. *)
Lemma tick_without_velocity (i : TickIn) (s : Vars) :
  without_velocity (fst (tick i s)) =
    without_velocity (fst (tick (without_velocity_in i) (without_velocity s))) /\
  snd (tick i s) = snd (tick (without_velocity_in i) (without_velocity s)).
Proof.
  unfold tick, dispatch. simpl.
  destruct (cur_ctrl_state s); simpl;
    repeat match goal with
           | |- context [if ?b <=? ?c then _ else _] =>
               destruct (b <=? c); simpl
           end; split; reflexivity.
Qed.

Lemma without_velocity_state (s : Vars) :
  cur_ctrl_state (without_velocity s) = cur_ctrl_state s.
Proof. reflexivity. Qed.

Lemma tick_low_equivalent (i1 i2 : TickIn) (s1 s2 : Vars) :
  without_velocity_in i1 = without_velocity_in i2 ->
  without_velocity s1 = without_velocity s2 ->
  without_velocity (fst (tick i1 s1)) = without_velocity (fst (tick i2 s2)) /\
  snd (tick i1 s1) = snd (tick i2 s2).
Proof.
  intros Hi Hs.
  destruct (tick_without_velocity i1 s1) as [A1 A2].
  destruct (tick_without_velocity i2 s2) as [B1 B2].
  rewrite A1, A2, B1, B2, Hi, Hs. split; reflexivity.
Qed.

Lemma run_low_equivalent (ins1 ins2 : list TickIn) :
  map without_velocity_in ins1 = map without_velocity_in ins2 ->
  forall s1 s2 : Vars,
    without_velocity s1 = without_velocity s2 ->
    trajectory ins1 s1 = trajectory ins2 s2 /\
    trace ins1 s1 = trace ins2 s2 /\
    without_velocity (final ins1 s1) = without_velocity (final ins2 s2).
Proof.
  revert ins2. induction ins1 as [|i1 ins1 IH]; intros [|i2 ins2] H s1 s2 Hs;
    try discriminate.
  - repeat split. exact Hs.
  - cbn [map] in H.
    assert (Hi : without_velocity_in i1 = without_velocity_in i2) by congruence.
    assert (Hrest : map without_velocity_in ins1 = map without_velocity_in ins2)
      by congruence.
    destruct (tick_low_equivalent i1 i2 s1 s2 Hi Hs) as [T1 T2].
    destruct (IH ins2 Hrest _ _ T1) as (R1 & R2 & R3).
    rewrite !trajectory_cons, !trace_cons, !final_cons, R1, R2, R3, T2.
    repeat split. f_equal.
    rewrite <- (without_velocity_state (fst (tick i1 s1))), T1.
    reflexivity.
Qed.

(** C9.  Every iteration stores what [getTranslationVelocityCmd] and
    [getRotationVelocityCmd] return, and nothing reads the two variables:
    two runs from the same store whose inputs differ at most in these two
    reads visit the same control states, emit the same events, and end in
    stores that differ at most in the two velocity variables. *)
Theorem velocity_commands_are_unused :
  (forall (i : TickIn) (s : Vars),
     translation_velocity_cmd (fst (tick i s)) = translation_velocity i /\
     rotation_velocity_cmd (fst (tick i s)) = rotation_velocity i) /\
  (forall (ins1 ins2 : list TickIn) (s : Vars),
     map without_velocity_in ins1 = map without_velocity_in ins2 ->
     trajectory ins1 s = trajectory ins2 s /\
     trace ins1 s = trace ins2 s /\
     without_velocity (final ins1 s) = without_velocity (final ins2 s)).
Proof.
  split.
  - intros i s. unfold tick, dispatch. simpl.
    destruct (cur_ctrl_state s); simpl;
      repeat match goal with
             | |- context [if ?b <=? ?c then _ else _] =>
                 destruct (b <=? c); simpl
             end; split; reflexivity.
  - intros ins1 ins2 s H. apply run_low_equivalent; [exact H | reflexivity].
Qed.

Lemma velocity_commands_are_unused_witness :
  trace [input_fast; input0] (vars0 QUAD_CTRL_STAND_UP1)
  = trace [input0; input_fast] (vars0 QUAD_CTRL_STAND_UP1).
Proof.
  destruct velocity_commands_are_unused as (_ & H).
  destruct (H [input_fast; input0] [input0; input_fast]
              (vars0 QUAD_CTRL_STAND_UP1) eq_refl) as (_ & H2 & _).
  exact H2.
Defined.

(** ** The tele-operated orientation state *)

Section Rotations.
Import NsatzTactic RNsatz.
Local Open Scope R_scope.

Lemma matrix_ext (a b : Matrix3d) :
  m00 a = m00 b -> m01 a = m01 b -> m02 a = m02 b ->
  m10 a = m10 b -> m11 a = m11 b -> m12 a = m12 b ->
  m20 a = m20 b -> m21 a = m21 b -> m22 a = m22 b -> a = b.
Proof. destruct a, b; simpl; intros; subst; reflexivity. Qed.

Lemma cos_double (h : R) : cos (2 * h) = 1 - 2 * (sin h * sin h).
Proof.
  rewrite cos_2a. pose proof (sin2_cos2 h) as H. unfold Rsqr in H. lra.
Qed.

Lemma sin_double (h : R) : sin (2 * h) = 2 * (sin h * cos h).
Proof. rewrite sin_2a. ring. Qed.

Lemma cos_half_angle (a : R) :
  cos a = 1 - 2 * (sin (0.5 * a) * sin (0.5 * a)).
Proof. rewrite <- cos_double. f_equal. lra. Qed.

Lemma sin_half_angle (a : R) : sin a = 2 * (sin (0.5 * a) * cos (0.5 * a)).
Proof. rewrite <- sin_double. f_equal. lra. Qed.

Lemma pitch_angle_scaled (v : R) : pitch_angle v = v * sixteen_degrees.
Proof. unfold pitch_angle, sixteen_degrees. field. Qed.

Lemma roll_angle_scaled (v : R) : roll_angle v = v * sixteen_degrees.
Proof. unfold roll_angle, sixteen_degrees. field. Qed.

Lemma yaw_angle_zero : yaw_angle = 0.
Proof. unfold yaw_angle. field. Qed.

(** The quaternion product of the three factors, with a zero first angle,
    written out. *)
Lemma target_body_R_entries (rv lv : R) :
  let p := pitch_angle rv in
  let r := roll_angle lv in
  target_body_R rv lv =
    mkMatrix3d (cos p)     (sin p * sin r) (sin p * cos r)
               0           (cos r)         (- sin r)
               (- sin p)   (cos p * sin r) (cos p * cos r).
Proof.
  cbv zeta. unfold target_body_R. rewrite yaw_angle_zero.
  set (p := pitch_angle rv). set (r := roll_angle lv).
  rewrite (cos_half_angle p), (sin_half_angle p),
    (cos_half_angle r), (sin_half_angle r).
  unfold quat_toRotationMatrix, qmul, quat_of_aa, UnitX, UnitY, UnitZ.
  cbn [angle axis vx vy vz qw qx qy qz].
  replace (0.5 * 0) with 0 by ring. rewrite cos_0, sin_0.
  pose proof (sin2_cos2 (0.5 * p)) as Hp. pose proof (sin2_cos2 (0.5 * r)) as Hr.
  unfold Rsqr in Hp, Hr.
  set (sp := sin (0.5 * p)) in *. set (cp := cos (0.5 * p)) in *.
  set (sr := sin (0.5 * r)) in *. set (cr := cos (0.5 * r)) in *.
  assert (Ep : cp * cp = 1 - sp * sp) by lra.
  assert (Er : cr * cr = 1 - sr * sr) by lra.
  clearbody sp cp sr cr. clear Hp Hr.
  apply matrix_ext; cbn [m00 m01 m02 m10 m11 m12 m20 m21 m22]; nsatz.
Qed.

Lemma yaw_pitch_roll_entries (p r : R) :
  yaw_pitch_roll 0 p r =
    mkMatrix3d (cos p)     (sin p * sin r) (sin p * cos r)
               0           (cos r)         (- sin r)
               (- sin p)   (cos p * sin r) (cos p * cos r).
Proof.
  unfold yaw_pitch_roll, rotZ, rotY, rotX, toRotationMatrix, mmul, vscale,
    UnitX, UnitY, UnitZ.
  cbn [angle axis vx vy vz m00 m01 m02 m10 m11 m12 m20 m21 m22].
  rewrite cos_0, sin_0.
  apply matrix_ext; cbn [m00 m01 m02 m10 m11 m12 m20 m21 m22]; ring.
Qed.

Lemma scaled_axis_bound (v : R) :
  -1 <= v <= 1 -> Rabs (v * sixteen_degrees) <= sixteen_degrees.
Proof.
  intros [Hlo Hhi]. unfold sixteen_degrees.
  pose proof PI_RGT_0 as Hpi.
  apply Rabs_le. split; nra.
Qed.

End Rotations.

(** C10.  In the orientation state an iteration stays in the state and
    calls [reOrient] with [target_body_R] of the two vertical raw axes, and
    of nothing else.  That target is the yaw-pitch-roll rotation with yaw 0,
    pitch the right vertical axis times 16 degrees and roll the left
    vertical axis times 16 degrees; for raw values in [-1, 1] neither angle
    exceeds 16 degrees in magnitude. *)
Theorem orient_target_is_pitch_and_roll :
  (forall (i : TickIn) (s : Vars),
     cur_ctrl_state s = QUAD_CTRL_ORIENT ->
     cur_ctrl_state (fst (tick i s)) = QUAD_CTRL_ORIENT /\
     snd (tick i s) =
       preamble i s ++
       [StartBodyRUpdate;
        PrintAxes (right_vert_raw i) (left_vert_raw i);
        ReOrient (target_body_R (right_vert_raw i) (left_vert_raw i))]) /\
  (forall rv lv : R,
     target_body_R rv lv =
       yaw_pitch_roll 0 (rv * sixteen_degrees) (lv * sixteen_degrees)) /\
  (forall rv lv : R,
     m10 (target_body_R rv lv) = 0%R) /\
  (forall v : R,
     (-1 <= v <= 1)%R ->
     (Rabs (v * sixteen_degrees) <= sixteen_degrees)%R).
Proof.
  split; [|split; [|split]].
  - intros i s Hs. unfold tick, dispatch, preamble. simpl. rewrite Hs.
    simpl. split; [exact Hs | reflexivity].
  - intros rv lv. rewrite yaw_pitch_roll_entries.
    rewrite <- pitch_angle_scaled, <- roll_angle_scaled.
    apply target_body_R_entries.
  - intros rv lv. rewrite target_body_R_entries. reflexivity.
  - exact scaled_axis_bound.
Qed.

Lemma orient_target_is_pitch_and_roll_witness :
  cur_ctrl_state (fst (tick input0 (vars0 QUAD_CTRL_ORIENT)))
  = QUAD_CTRL_ORIENT.
Proof.
  destruct orient_target_is_pitch_and_roll as (H & _).
  destruct (H input0 (vars0 QUAD_CTRL_ORIENT) eq_refl) as (H1 & _).
  exact H1.
Defined.

(** ** Angle-axis rotations and their conversions *)

Section AngleAxisFacts.
Import NsatzTactic RNsatz.
Local Open Scope R_scope.

(** The rotation matrix in terms of the half angle. *)
Lemma toRotationMatrix_half (t : R) (a : Vector3d) :
  let sh := sin (0.5 * t) in
  let ch := cos (0.5 * t) in
  toRotationMatrix (mkAngleAxisd t a) =
    mkMatrix3d
      (2 * sh * sh * (vx a * vx a) + (1 - 2 * sh * sh))
      (2 * sh * sh * (vx a * vy a) - 2 * sh * ch * vz a)
      (2 * sh * sh * (vx a * vz a) + 2 * sh * ch * vy a)
      (2 * sh * sh * (vx a * vy a) + 2 * sh * ch * vz a)
      (2 * sh * sh * (vy a * vy a) + (1 - 2 * sh * sh))
      (2 * sh * sh * (vy a * vz a) - 2 * sh * ch * vx a)
      (2 * sh * sh * (vx a * vz a) - 2 * sh * ch * vy a)
      (2 * sh * sh * (vy a * vz a) + 2 * sh * ch * vx a)
      (2 * sh * sh * (vz a * vz a) + (1 - 2 * sh * sh)).
Proof.
  cbv zeta. unfold toRotationMatrix, vscale.
  cbn [angle axis vx vy vz].
  rewrite (cos_half_angle t), (sin_half_angle t).
  apply matrix_ext; cbn [m00 m01 m02 m10 m11 m12 m20 m21 m22]; ring.
Qed.

Lemma half_angle_positive (t : R) :
  0 < t < PI -> 0 < sin (0.5 * t) /\ 0 < cos (0.5 * t).
Proof.
  intros [H0 H1]. pose proof PI_RGT_0. split.
  - apply sin_gt_0; lra.
  - apply cos_gt_0; lra.
Qed.

Lemma transpose_toRotationMatrix (t : R) (a : Vector3d) :
  transpose (toRotationMatrix (mkAngleAxisd t a)) =
  toRotationMatrix (mkAngleAxisd (- t) a).
Proof.
  unfold toRotationMatrix, transpose, vscale.
  cbn [angle axis vx vy vz m00 m01 m02 m10 m11 m12 m20 m21 m22].
  rewrite cos_neg, sin_neg.
  apply matrix_ext; cbn [m00 m01 m02 m10 m11 m12 m20 m21 m22]; ring.
Qed.

Lemma mmul_same_axis (t u : R) (a : Vector3d) :
  unit_vector a ->
  mmul (toRotationMatrix (mkAngleAxisd t a))
       (toRotationMatrix (mkAngleAxisd u a)) =
  toRotationMatrix (mkAngleAxisd (t + u) a).
Proof.
  unfold unit_vector. intros Ha.
  unfold toRotationMatrix, mmul, vscale.
  cbn [angle axis vx vy vz m00 m01 m02 m10 m11 m12 m20 m21 m22].
  rewrite cos_plus, sin_plus.
  destruct a as [x y z]. cbn [vx vy vz] in *.
  set (ct := cos t). set (st := sin t). set (cu := cos u). set (su := sin u).
  clearbody ct st cu su.
  apply matrix_ext; cbn [m00 m01 m02 m10 m11 m12 m20 m21 m22]; nsatz.
Qed.

Lemma mmul_assoc (a b c : Matrix3d) :
  mmul (mmul a b) c = mmul a (mmul b c).
Proof.
  unfold mmul. cbn [m00 m01 m02 m10 m11 m12 m20 m21 m22].
  apply matrix_ext; cbn [m00 m01 m02 m10 m11 m12 m20 m21 m22]; ring.
Qed.

Lemma transpose_mmul (a b : Matrix3d) :
  transpose (mmul a b) = mmul (transpose b) (transpose a).
Proof.
  unfold mmul, transpose. cbn [m00 m01 m02 m10 m11 m12 m20 m21 m22].
  apply matrix_ext; cbn [m00 m01 m02 m10 m11 m12 m20 m21 m22]; ring.
Qed.

Lemma half_decimal : 0.5 = / 2.
Proof. lra. Qed.

(** Replace the square root in the goal by [y], given [y * y] is its
    argument and [0 <= y]. *)
Ltac sqrt_is y :=
  match goal with
  | |- context [sqrt ?e] =>
      let H := fresh "Hsqrt" in
      assert (H : sqrt e = y);
      [ apply sqrt_lem_1; [ | | ] | rewrite H; clear H ]
  end.

Lemma quat_of_matrix_rotation (t : R) (a : Vector3d) :
  unit_vector a -> 0 < t < PI ->
  exists sg : R,
    (sg = 1 \/ sg = -1) /\
    quat_of_matrix (toRotationMatrix (mkAngleAxisd t a)) =
    half_angle_quat sg (mkAngleAxisd t a).
Proof.
  unfold unit_vector. intros Ha Ht.
  destruct (half_angle_positive t Ht) as [Hsh Hch].
  pose proof (sin2_cos2 (0.5 * t)) as Hsc. unfold Rsqr in Hsc.
  rewrite toRotationMatrix_half. cbv zeta.
  unfold half_angle_quat. cbn [angle axis].
  destruct a as [x y z]. cbn [vx vy vz] in *.
  set (sh := sin (0.5 * t)) in *. set (ch := cos (0.5 * t)) in *.
  clearbody sh ch.
  assert (Hss : 0 < sh * sh) by nra.
  unfold quat_of_matrix. cbn [m00 m01 m02 m10 m11 m12 m20 m21 m22].
  destruct (Rlt_dec 0 _) as [Htr | Htr].
  - exists 1. split; [left; reflexivity|].
    sqrt_is (2 * ch); [nra | nra | nsatz |].
    f_equal; rewrite half_decimal; field; lra.
  - destruct (Rlt_dec _ _) as [H01 | H01];
      destruct (Rlt_dec _ _) as [H2 | H2].
    + (* z largest *)
      assert (Hz : 1 <= 3 * (z * z)) by nra.
      destruct (Rlt_dec 0 z) as [Hp | Hn].
      * exists 1. split; [left; reflexivity|].
        sqrt_is (2 * sh * z); [nra | nra | nsatz |].
        f_equal; rewrite half_decimal; field; lra.
      * assert (Hneg : z < 0) by nra.
        exists (-1). split; [right; reflexivity|].
        sqrt_is (2 * sh * - z); [nra | nra | nsatz |].
        f_equal; rewrite half_decimal; field; lra.
    + (* y largest *)
      assert (Hy : 1 <= 3 * (y * y)) by nra.
      destruct (Rlt_dec 0 y) as [Hp | Hn].
      * exists 1. split; [left; reflexivity|].
        sqrt_is (2 * sh * y); [nra | nra | nsatz |].
        f_equal; rewrite half_decimal; field; lra.
      * assert (Hneg : y < 0) by nra.
        exists (-1). split; [right; reflexivity|].
        sqrt_is (2 * sh * - y); [nra | nra | nsatz |].
        f_equal; rewrite half_decimal; field; lra.
    + (* z largest *)
      assert (Hz : 1 <= 3 * (z * z)) by nra.
      destruct (Rlt_dec 0 z) as [Hp | Hn].
      * exists 1. split; [left; reflexivity|].
        sqrt_is (2 * sh * z); [nra | nra | nsatz |].
        f_equal; rewrite half_decimal; field; lra.
      * assert (Hneg : z < 0) by nra.
        exists (-1). split; [right; reflexivity|].
        sqrt_is (2 * sh * - z); [nra | nra | nsatz |].
        f_equal; rewrite half_decimal; field; lra.
    + (* x largest *)
      assert (Hx : 1 <= 3 * (x * x)) by nra.
      destruct (Rlt_dec 0 x) as [Hp | Hn].
      * exists 1. split; [left; reflexivity|].
        sqrt_is (2 * sh * x); [nra | nra | nsatz |].
        f_equal; rewrite half_decimal; field; lra.
      * assert (Hneg : x < 0) by nra.
        exists (-1). split; [right; reflexivity|].
        sqrt_is (2 * sh * - x); [nra | nra | nsatz |].
        f_equal; rewrite half_decimal; field; lra.
Qed.

Lemma atan2_half_angle (t : R) :
  0 < t < PI -> atan2 (sin (0.5 * t)) (cos (0.5 * t)) = 0.5 * t.
Proof.
  intros Ht. destruct (half_angle_positive t Ht) as [Hsh Hch].
  unfold atan2. destruct (Rlt_dec 0 (cos (0.5 * t))) as [_ | H];
    [|contradiction].
  change (sin (0.5 * t) / cos (0.5 * t)) with (tan (0.5 * t)).
  apply atan_tan. pose proof PI_RGT_0. lra.
Qed.

Lemma aa_of_quat_half_angle (sg t : R) (a : Vector3d) :
  sg = 1 \/ sg = -1 -> unit_vector a -> 0 < t < PI ->
  aa_of_quat (half_angle_quat sg (mkAngleAxisd t a)) = mkAngleAxisd t a.
Proof.
  unfold unit_vector. intros Hsg Ha Ht.
  destruct (half_angle_positive t Ht) as [Hsh Hch].
  pose proof (atan2_half_angle t Ht) as Hatan.
  unfold aa_of_quat, half_angle_quat. cbv zeta. unfold Eigen.norm, vdiv.
  cbn [angle axis qw qx qy qz vx vy vz].
  destruct a as [x y z]. cbn [vx vy vz] in *.
  set (sh := sin (0.5 * t)) in *. set (ch := cos (0.5 * t)) in *.
  assert (Hn : sqrt (sg * (sh * x) * (sg * (sh * x)) +
                     sg * (sh * y) * (sg * (sh * y)) +
                     sg * (sh * z) * (sg * (sh * z))) = sh).
  { apply sqrt_lem_1; [destruct Hsg; subst sg; nra | lra |].
    destruct Hsg; subst sg; nsatz. }
  rewrite Hn.
  destruct (Req_dec_T sh 0) as [H0 | _]; [lra|].
  assert (Habs : Rabs (sg * ch) = ch).
  { destruct Hsg; subst sg.
    - rewrite Rmult_1_l. apply Rabs_pos_eq. lra.
    - replace (-1 * ch) with (- ch) by ring. rewrite Rabs_Ropp.
      apply Rabs_pos_eq. lra. }
  rewrite Habs, Hatan.
  f_equal; [lra|].
  destruct Hsg; subst sg.
  - destruct (Rlt_dec (1 * ch) 0) as [H | _]; [lra|].
    f_equal; field; lra.
  - destruct (Rlt_dec (-1 * ch) 0) as [_ | H]; [|lra].
    f_equal; field; lra.
Qed.

(** Converting the rotation by an angle in (0, pi) about a unit axis to a
    matrix and back gives the angle and the axis again. *)
Lemma fromRotationMatrix_toRotationMatrix (t : R) (a : Vector3d) :
  unit_vector a -> 0 < t < PI ->
  fromRotationMatrix (toRotationMatrix (mkAngleAxisd t a)) = mkAngleAxisd t a.
Proof.
  intros Ha Ht. unfold fromRotationMatrix.
  destruct (quat_of_matrix_rotation t a Ha Ht) as (sg & Hsg & Hq).
  rewrite Hq. apply aa_of_quat_half_angle; assumption.
Qed.

End AngleAxisFacts.

(** ** The passive-orientation state *)

Section PassiveOrientation.
Local Open Scope R_scope.

Lemma tick_passive (i : TickIn) (s : Vars) :
  cur_ctrl_state s = QUAD_CTRL_PASSIVE_ORIENT ->
  let d := mmul (balance_body_R s) (transpose (body_R i)) in
  let aa := reduced_difference d in
  let c := mmul (control_R s) (toRotationMatrix aa) in
  cur_ctrl_state (fst (tick i s)) = QUAD_CTRL_PASSIVE_ORIENT /\
  balance_body_R (fst (tick i s)) = balance_body_R s /\
  bodyR (fst (tick i s)) = body_R i /\
  diff_body_R (fst (tick i s)) = d /\
  tmp_aa (fst (tick i s)) = aa /\
  control_R (fst (tick i s)) = c /\
  snd (tick i s) = preamble i s ++ [StartBodyRUpdate; GetBodyR; ReOrient c].
Proof.
  intros Hs. destruct s. cbn [cur_ctrl_state] in Hs. subst.
  cbv zeta. repeat split; reflexivity.
Qed.

Lemma passive_forever (ins : list TickIn) :
  forall s : Vars,
    cur_ctrl_state s = QUAD_CTRL_PASSIVE_ORIENT ->
    cur_ctrl_state (final ins s) = QUAD_CTRL_PASSIVE_ORIENT /\
    balance_body_R (final ins s) = balance_body_R s.
Proof.
  induction ins as [|i ins IH]; intros s Hs.
  - split; [exact Hs | reflexivity].
  - rewrite final_cons.
    destruct (tick_passive i s Hs) as (T1 & T2 & _).
    destruct (IH _ T1) as [I1 I2]. split; [exact I1 | congruence].
Qed.

Lemma toRotationMatrix_zero (a : Vector3d) :
  toRotationMatrix (mkAngleAxisd 0 a) = Identity.
Proof.
  unfold toRotationMatrix, vscale, Identity.
  cbn [angle axis vx vy vz]. rewrite cos_0, sin_0.
  apply matrix_ext; cbn [m00 m01 m02 m10 m11 m12 m20 m21 m22]; ring.
Qed.

(** The discrepancy when the body tracks a command that is a rotation
    about the axis of the initial discrepancy. *)
Lemma tracked_discrepancy (target body0 : Matrix3d) (t p : R) (a : Vector3d) :
  unit_vector a ->
  mmul target (transpose body0) = toRotationMatrix (mkAngleAxisd t a) ->
  mmul target
       (transpose (mmul (toRotationMatrix (mkAngleAxisd p a)) body0)) =
  toRotationMatrix (mkAngleAxisd (t - p) a).
Proof.
  intros Ha H0.
  rewrite transpose_mmul, <- mmul_assoc, H0, transpose_toRotationMatrix.
  rewrite (mmul_same_axis t (- p) a Ha). reflexivity.
Qed.

Lemma track_converges (target body0 : Matrix3d) (t : R) (a : Vector3d)
    (ins : list TickIn) :
  unit_vector a ->
  mmul target (transpose body0) = toRotationMatrix (mkAngleAxisd t a) ->
  forall (s : Vars) (p : R),
    cur_ctrl_state s = QUAD_CTRL_PASSIVE_ORIENT ->
    balance_body_R s = target ->
    control_R s = toRotationMatrix (mkAngleAxisd p a) ->
    0 < t - p < PI ->
    let s' := track ins body0 s in
    cur_ctrl_state s' = QUAD_CTRL_PASSIVE_ORIENT /\
    angular_error (balance_body_R s') (tracked_body body0 s') =
      (1 - balance_gain) ^ length ins * (t - p).
Proof.
  intros Ha H0. induction ins as [|i ins IH]; intros s p Hs Hb Hc Hp; cbv zeta.
  - cbn [track length pow]. split; [exact Hs|].
    unfold angular_error, tracked_body. rewrite Hb, Hc.
    rewrite (tracked_discrepancy target body0 t p a Ha H0).
    rewrite (fromRotationMatrix_toRotationMatrix (t - p) a Ha Hp).
    cbn [angle]. ring.
  - cbn [track length].
    set (i' := with_body_R (tracked_body body0 s) i).
    destruct (tick_passive i' s Hs) as (T1 & T2 & _ & _ & T5 & T6 & _).
    assert (Haa : tmp_aa (fst (tick i' s)) =
                  mkAngleAxisd (balance_gain * (t - p)) a).
    { rewrite T5. unfold i', with_body_R, tracked_body. cbn [body_R].
      unfold reduced_difference. rewrite Hb, Hc.
      rewrite (tracked_discrepancy target body0 t p a Ha H0).
      rewrite (fromRotationMatrix_toRotationMatrix (t - p) a Ha Hp).
      reflexivity. }
    assert (Hc' : control_R (fst (tick i' s)) =
                  toRotationMatrix
                    (mkAngleAxisd (p + balance_gain * (t - p)) a)).
    { rewrite T6. rewrite <- T5, Haa, Hc. apply mmul_same_axis. exact Ha. }
    assert (Hp' : 0 < t - (p + balance_gain * (t - p)) < PI).
    { unfold balance_gain. split; nra. }
    destruct (IH (fst (tick i' s)) (p + balance_gain * (t - p)) T1
                (eq_trans T2 Hb) Hc' Hp') as [I1 I2].
    split; [exact I1|]. rewrite I2. cbn [pow]. ring.
Qed.

(** The discrepancy between the identity and the tilted body, as Eigen
    converts it: the angle is twice the arc tangent of 3/4, about 74
    degrees. *)
Lemma angular_error_tilted : angular_error Identity tilted = 2 * atan (3 / 4).
Proof.
  unfold angular_error.
  replace (mmul Identity (transpose tilted)) with
    (mkMatrix3d 1 0 0 0 (7 / 25) (24 / 25) 0 (- (24 / 25)) (7 / 25)).
  2:{ unfold mmul, transpose, Identity, tilted.
      cbn [m00 m01 m02 m10 m11 m12 m20 m21 m22].
      apply matrix_ext; cbn [m00 m01 m02 m10 m11 m12 m20 m21 m22]; lra. }
  unfold fromRotationMatrix, quat_of_matrix.
  cbn [m00 m01 m02 m10 m11 m12 m20 m21 m22].
  destruct (Rlt_dec 0 (1 + 7 / 25 + 7 / 25)) as [_ | H]; [|lra].
  assert (Hs : sqrt (1 + 7 / 25 + 7 / 25 + 1) = 8 / 5).
  { apply sqrt_lem_1; lra. }
  rewrite Hs. unfold aa_of_quat. cbv zeta. unfold norm.
  cbn [qw qx qy qz vx vy vz].
  assert (Hn : sqrt ((- (24 / 25) - 24 / 25) * (0.5 / (8 / 5)) *
                     ((- (24 / 25) - 24 / 25) * (0.5 / (8 / 5))) +
                     (0 - 0) * (0.5 / (8 / 5)) * ((0 - 0) * (0.5 / (8 / 5))) +
                     (0 - 0) * (0.5 / (8 / 5)) * ((0 - 0) * (0.5 / (8 / 5))))
               = 3 / 5).
  { apply sqrt_lem_1; lra. }
  rewrite Hn.
  destruct (Req_dec_T (3 / 5) 0) as [H | _]; [lra|].
  cbn [angle]. f_equal.
  rewrite Rabs_pos_eq by lra.
  unfold atan2. destruct (Rlt_dec 0 (0.5 * (8 / 5))) as [_ | H]; [|lra].
  f_equal. lra.
Qed.

Lemma angular_error_tilted_positive : 0 < angular_error Identity tilted.
Proof.
  rewrite angular_error_tilted.
  assert (0 < atan (3 / 4)); [|lra].
  rewrite <- atan_0. apply atan_increasing. lra.
Qed.

End PassiveOrientation.

(** ** The wait and [dt] *)

Lemma to_int_small (z : Z) : - 2 ^ 31 <= z < 2 ^ 31 -> to_int z = z.
Proof.
  intros H. unfold to_int.
  change (2 ^ 31) with 2147483648 in *. change (2 ^ 32) with 4294967296.
  rewrite Z.mod_small; lia.
Qed.

Lemma need_to_wait_residual (prev now : time_point) :
  prev <= now -> now - prev < 2 ^ 31 * ns_per_ms ->
  let residual := prev + interval_ms * ns_per_ms - now in
  need_to_wait prev now = Z.max 0 (Z.quot residual ns_per_ms) /\
  need_to_wait prev now * ns_per_ms <= Z.max 0 residual /\
  Z.max 0 residual < (need_to_wait prev now + 1) * ns_per_ms /\
  (residual <= 0 -> need_to_wait prev now = 0).
Proof.
  intros Hmono Hbound. cbv zeta.
  unfold need_to_wait, to_milliseconds, interval_ms, ns_per_ms in *.
  change (2 ^ 31) with 2147483648 in Hbound.
  set (r := prev + 5 * 1000000 - now) in *.
  assert (Hq : - 2147483648 <= Z.quot r 1000000 < 2147483648).
  { pose proof (Z.quot_rem' r 1000000) as E.
    destruct (Z_le_gt_dec 0 r) as [Hr | Hr].
    - pose proof (Z.rem_bound_pos r 1000000 Hr ltac:(lia)). lia.
    - pose proof (Z.rem_bound_pos (- r) 1000000 ltac:(lia) ltac:(lia)).
      pose proof (Z.rem_opp_l' r 1000000). lia. }
  rewrite to_int_small by (change (2 ^ 31) with 2147483648; lia).
  pose proof (Z.quot_rem' r 1000000) as E.
  destruct (Z_le_gt_dec 0 r) as [Hr | Hr].
  - pose proof (Z.rem_bound_pos r 1000000 Hr ltac:(lia)). lia.
  - pose proof (Z.rem_bound_pos (- r) 1000000 ltac:(lia) ltac:(lia)).
      pose proof (Z.rem_opp_l' r 1000000). lia.
Qed.

Lemma tick_dt (i : TickIn) (s : Vars) :
  dt (fst (tick i s)) = clock_now i - prev_time s /\
  prev_time (fst (tick i s)) = clock_now i.
Proof.
  unfold tick, dispatch. simpl.
  destruct (cur_ctrl_state s); simpl;
    repeat match goal with
           | |- context [if ?b <=? ?c then _ else _] =>
               destruct (b <=? c); simpl
           end; split; reflexivity.
Qed.

Lemma tick_with_timing (i : TickIn) (s : Vars) (p : time_point) (d : duration) :
  fst (tick i (with_timing p d s)) =
    with_timing (clock_now i) (clock_now i - p) (fst (tick i s)) /\
  tl (snd (tick i (with_timing p d s))) = tl (snd (tick i s)).
Proof.
  destruct s as [c e ct rt pt d0 tv rv f b bb db cr ta ax].
  unfold tick, dispatch, with_timing. simpl.
  destruct c; simpl;
    repeat match goal with
           | |- context [if ?b <=? ?c then _ else _] =>
               destruct (b <=? c); simpl
           end; split; reflexivity.
Qed.

(** C3, as amended.  In the passive-orientation state every iteration
    takes the discrepancy between the balance target and the body
    orientation it reads, scales its angle by 0.031, multiplies the running
    control rotation by that correction and calls [reOrient] with the
    product; the state and the target are never changed.  The error itself
    is what the body does with the command: when the body tracks the
    commanded rotation, from an initial discrepancy of an angle in (0, pi)
    about a unit axis and the control rotation at the identity, the error
    after n iterations is (1 - 0.031)^n times the initial one. *)
Theorem passive_balance_integrates_correction :
  (forall (i : TickIn) (s : Vars),
     cur_ctrl_state s = QUAD_CTRL_PASSIVE_ORIENT ->
     let s' := fst (tick i s) in
     let d := mmul (balance_body_R s) (transpose (body_R i)) in
     cur_ctrl_state s' = QUAD_CTRL_PASSIVE_ORIENT /\
     balance_body_R s' = balance_body_R s /\
     angle (tmp_aa s') =
       (0.031 * angular_error (balance_body_R s) (body_R i))%R /\
     axis (tmp_aa s') = axis (fromRotationMatrix d) /\
     control_R s' = mmul (control_R s) (toRotationMatrix (tmp_aa s')) /\
     snd (tick i s) =
       preamble i s ++ [StartBodyRUpdate; GetBodyR; ReOrient (control_R s')]) /\
  (forall (ins : list TickIn) (s : Vars),
     cur_ctrl_state s = QUAD_CTRL_PASSIVE_ORIENT ->
     cur_ctrl_state (final ins s) = QUAD_CTRL_PASSIVE_ORIENT /\
     balance_body_R (final ins s) = balance_body_R s) /\
  (forall (ins : list TickIn) (s : Vars) (body0 : Matrix3d) (t : R)
          (a : Vector3d),
     cur_ctrl_state s = QUAD_CTRL_PASSIVE_ORIENT ->
     control_R s = Identity ->
     unit_vector a -> (0 < t < PI)%R ->
     mmul (balance_body_R s) (transpose body0) =
       toRotationMatrix (mkAngleAxisd t a) ->
     let s' := track ins body0 s in
     cur_ctrl_state s' = QUAD_CTRL_PASSIVE_ORIENT /\
     angular_error (balance_body_R s') (tracked_body body0 s') =
       ((1 - 0.031) ^ length ins * t)%R).
Proof.
  split; [|split].
  - intros i s Hs. cbv zeta.
    destruct (tick_passive i s Hs) as (T1 & T2 & _ & _ & T5 & T6 & T7).
    rewrite T7, T6, T5. repeat split; assumption.
  - intros ins s Hs. apply passive_forever. exact Hs.
  - intros ins s body0 t a Hs Hc Ha Ht H0. cbv zeta.
    rewrite <- (toRotationMatrix_zero a) in Hc.
    destruct (track_converges (balance_body_R s) body0 t a ins Ha H0 s 0%R
                Hs eq_refl Hc) as [C1 C2].
    { rewrite Rminus_0_r. exact Ht. }
    split; [exact C1|]. rewrite C2, Rminus_0_r. reflexivity.
Qed.

(** A body a quarter turn away from the target, about the X axis. *)
Lemma quarter_turn_discrepancy :
  mmul (balance_body_R (passive0 0)) (transpose (transpose (rotX (PI / 2)))) =
  toRotationMatrix (mkAngleAxisd (PI / 2) UnitX).
Proof.
  unfold rotX. cbn [balance_body_R passive0 with_timing vars0].
  generalize (toRotationMatrix (mkAngleAxisd (PI / 2) UnitX)). intros m.
  unfold mmul, transpose, Identity.
  cbn [m00 m01 m02 m10 m11 m12 m20 m21 m22].
  apply matrix_ext; cbn [m00 m01 m02 m10 m11 m12 m20 m21 m22]; ring.
Qed.

Lemma passive_balance_integrates_correction_witness :
  angular_error
    (balance_body_R (track [input0; input0] (transpose (rotX (PI / 2)))
                           (passive0 0)))
    (tracked_body (transpose (rotX (PI / 2)))
                  (track [input0; input0] (transpose (rotX (PI / 2)))
                         (passive0 0)))
  = ((1 - 0.031) ^ 2 * (PI / 2))%R.
Proof.
  destruct passive_balance_integrates_correction as (_ & _ & H).
  assert (Hunit : unit_vector UnitX).
  { unfold unit_vector, UnitX. cbn [vx vy vz]. ring. }
  assert (Hquarter : (0 < PI / 2 < PI)%R).
  { pose proof PI_RGT_0. split; lra. }
  destruct (H [input0; input0] (passive0 0) (transpose (rotX (PI / 2)))
              (PI / 2)%R UnitX eq_refl eq_refl Hunit Hquarter
              quarter_turn_discrepancy) as [_ H2].
  exact H2.
Defined.

(** C3 as stated fails: with the target the identity and the body read as
    tilted, and read as tilted again in the next iteration, the error is
    twice the arc tangent of 3/4 both times, and not smaller the second
    time, while the control rotation has moved on. *)
Lemma passive_error_not_reduced_counterexample :
  let s0 := passive0 0 in
  let s1 := fst (tick input_tilted s0) in
  let s2 := fst (tick (with_body_R tilted (at_time (tick_instant 2) input0))
                      s1) in
  cur_ctrl_state s2 = QUAD_CTRL_PASSIVE_ORIENT /\
  angular_error (balance_body_R s1) (bodyR s1) = (2 * atan (3 / 4))%R /\
  angular_error (balance_body_R s2) (bodyR s2) = (2 * atan (3 / 4))%R /\
  (0 < angular_error (balance_body_R s1) (bodyR s1))%R /\
  ~ (angular_error (balance_body_R s2) (bodyR s2) <
     angular_error (balance_body_R s1) (bodyR s1))%R.
Proof.
  cbv zeta.
  set (s1 := fst (tick input_tilted (passive0 0))).
  set (i2 := with_body_R tilted (at_time (tick_instant 2) input0)).
  assert (H0 : cur_ctrl_state (passive0 0) = QUAD_CTRL_PASSIVE_ORIENT)
    by reflexivity.
  destruct (tick_passive input_tilted (passive0 0) H0)
    as (A1 & A2 & A3 & _).
  fold s1 in A1, A2, A3.
  destruct (tick_passive i2 s1 A1) as (B1 & B2 & B3 & _).
  rewrite B2, B3, A2, A3.
  change (balance_body_R (passive0 0)) with Identity.
  change (body_R input_tilted) with tilted.
  change (body_R i2) with tilted.
  rewrite angular_error_tilted.
  pose proof angular_error_tilted_positive as Hpos.
  rewrite angular_error_tilted in Hpos.
  repeat split; try assumption. lra.
Qed.

(** C6, as amended.  An iteration starts by sleeping the whole
    milliseconds of what is left of the 5 ms period since the previous
    iteration, and nothing when the period is over; it then sets [dt] to the
    clock difference since the previous iteration.  [dt] is written and
    never read: another previous time or [dt] changes the sleep and the new
    [dt] and nothing else.  The time passed to [runTest] in a gait state is
    the clock time since the state was entered, so a late iteration passes
    the larger time; the correction of the passive-orientation state has
    the angle 0.031 times the discrepancy whatever [dt] is. *)
Theorem tick_sleeps_residual_and_dt_is_unused :
  (forall (i : TickIn) (s : Vars),
     hd_error (snd (tick i s)) =
       Some (SleepFor (need_to_wait (prev_time s) (clock_wake i)))) /\
  (forall prev now : time_point,
     prev <= now -> now - prev < 2 ^ 31 * ns_per_ms ->
     let residual := prev + interval_ms * ns_per_ms - now in
     need_to_wait prev now = Z.max 0 (Z.quot residual ns_per_ms) /\
     need_to_wait prev now * ns_per_ms <= Z.max 0 residual /\
     Z.max 0 residual < (need_to_wait prev now + 1) * ns_per_ms /\
     (residual <= 0 -> need_to_wait prev now = 0)) /\
  (forall (i : TickIn) (s : Vars),
     dt (fst (tick i s)) = clock_now i - prev_time s /\
     prev_time (fst (tick i s)) = clock_now i) /\
  (forall (i : TickIn) (s : Vars) (p : time_point) (d : duration),
     fst (tick i (with_timing p d s)) =
       with_timing (clock_now i) (clock_now i - p) (fst (tick i s)) /\
     tl (snd (tick i (with_timing p d s))) = tl (snd (tick i s))) /\
  (forall (i : TickIn) (s : Vars) (m m' : SwingMode) (c' : ctrl_state_type),
     gait_row (cur_ctrl_state s) = Some (m, c', m') ->
     snd (tick i s) =
       preamble i s ++
       RunTest m (clock_state i - state_enter_time s) leg_swing_time ::
       (if gait_due i s then [PrepareTrajectories m' leg_swing_time]
        else [])) /\
  (forall (i : TickIn) (s : Vars),
     cur_ctrl_state s = QUAD_CTRL_PASSIVE_ORIENT ->
     angle (tmp_aa (fst (tick i s))) =
       (0.031 * angular_error (balance_body_R s) (body_R i))%R).
Proof.
  split; [|split; [|split; [|split; [|split]]]].
  - intros i s. reflexivity.
  - exact need_to_wait_residual.
  - exact tick_dt.
  - exact tick_with_timing.
  - intros i s m m' c' Hrow.
    destruct (tick_gait i s m m' c' Hrow) as (_ & _ & T3).
    rewrite T3. destruct (gait_due i s); reflexivity.
  - intros i s Hs.
    destruct (tick_passive i s Hs) as (_ & _ & _ & _ & T5 & _).
    rewrite T5. reflexivity.
Qed.

Lemma tick_sleeps_residual_and_dt_is_unused_witness :
  need_to_wait 0 55000000 = 0 /\ need_to_wait 0 1200000 = 3.
Proof.
  destruct tick_sleeps_residual_and_dt_is_unused as (_ & H & _).
  split.
  - destruct (H 0 55000000 ltac:(lia) ltac:(reflexivity)) as (_ & _ & _ & H4).
    apply H4. vm_compute. discriminate.
  - destruct (H 0 1200000 ltac:(lia) ltac:(reflexivity)) as (H1 & _).
    rewrite H1. reflexivity.
Defined.

(** C6 as stated fails for the passive-orientation correction: the same
    iteration after 5 ms and after 55 ms sets [dt] to 5 ms and to 55 ms,
    and applies the same correction, whose angle is not zero, to the same
    control rotation. *)
Lemma correction_ignores_dt_counterexample :
  let a := fst (tick input_tilted (passive0 0)) in
  let b := fst (tick input_tilted (passive0 (-50000000))) in
  dt a = 5000000 /\ dt b = 55000000 /\
  tmp_aa a = tmp_aa b /\ control_R a = control_R b /\
  angle (tmp_aa a) = (0.031 * (2 * atan (3 / 4)))%R /\
  (0 < angle (tmp_aa a))%R.
Proof.
  cbv zeta.
  assert (Ha : cur_ctrl_state (passive0 0) = QUAD_CTRL_PASSIVE_ORIENT)
    by reflexivity.
  assert (Hb : cur_ctrl_state (passive0 (-50000000)) = QUAD_CTRL_PASSIVE_ORIENT)
    by reflexivity.
  destruct (tick_passive input_tilted (passive0 0) Ha)
    as (_ & _ & _ & _ & A5 & A6 & _).
  destruct (tick_passive input_tilted (passive0 (-50000000)) Hb)
    as (_ & _ & _ & _ & B5 & B6 & _).
  destruct (tick_dt input_tilted (passive0 0)) as [Da _].
  destruct (tick_dt input_tilted (passive0 (-50000000))) as [Db _].
  split; [rewrite Da; reflexivity|].
  split; [rewrite Db; reflexivity|].
  split; [rewrite A5, B5; reflexivity|].
  split; [rewrite A6, B6; reflexivity|].
  assert (E : angle (tmp_aa (fst (tick input_tilted (passive0 0)))) =
              (0.031 * (2 * atan (3 / 4)))%R).
  { rewrite A5. unfold reduced_difference. cbn [angle].
    change (balance_body_R (passive0 0)) with Identity.
    change (body_R input_tilted) with tilted.
    fold (angular_error Identity tilted). rewrite angular_error_tilted.
    reflexivity. }
  split; [exact E|].
  rewrite E. pose proof angular_error_tilted_positive as Hpos.
  rewrite angular_error_tilted in Hpos. lra.
Qed.

End ControlFacts.

(** * Shutdown of the control thread *)

Module ThreadFacts.
Import Eigen Control Threads.

Lemma invariant_start (s : Vars) : invariant (start s).
Proof.
  unfold invariant, start; simpl.
  repeat split; intros; try discriminate; auto.
  destruct H; discriminate.
Qed.

Ltac world_cases w :=
  destruct w as [mp tp ce ec v em]; destruct mp, tp, ce, ec.

Lemma invariant_step (m : Move) (w w' : World) :
  invariant w -> step m w = Some w' -> invariant w'.
Proof.
  unfold invariant. intros (I1 & I2 & [I3 I3'] & I4 & I5) H.
  destruct m as [|i]; world_cases w; simpl in *;
    try discriminate; inversion H; subst; clear H; simpl;
    repeat split; intros; try discriminate; auto;
    try (exfalso; intuition discriminate);
    try (destruct (quit_button i); simpl in *; intuition discriminate).
Qed.

Lemma invariant_moves (ms : list Move) :
  forall w w', invariant w -> moves ms w = Some w' -> invariant w'.
Proof.
  induction ms as [|m ms IH]; intros w w' Hw H; simpl in H.
  - inversion H; subst. exact Hw.
  - destruct (step m w) as [w1|] eqn:E; [|discriminate].
    apply (IH w1 w'); [apply (invariant_step m w w1 Hw E) | exact H].
Qed.

(** Once the flag is cleared every move uses up one of the at most three
    moves that are left. *)
Lemma step_after_clear (m : Move) (w w' : World) :
  invariant w -> control_execute w = false -> step m w = Some w' ->
  control_execute w' = false /\ (moves_left w' < moves_left w)%nat.
Proof.
  unfold invariant. intros (I1 & I2 & [I3 I3'] & I4 & I5) Hc H.
  destruct m as [|i]; world_cases w; simpl in *;
    try discriminate; inversion H; subst; clear H; simpl;
    try (split; [reflexivity | unfold moves_left; simpl; lia]);
    exfalso;
    try (specialize (I1 eq_refl); discriminate);
    destruct (I3 eq_refl); discriminate.
Qed.

Lemma moves_after_clear (ms : list Move) :
  forall w w', invariant w -> control_execute w = false ->
    moves ms w = Some w' ->
    (length ms + moves_left w' <= moves_left w)%nat.
Proof.
  induction ms as [|m ms IH]; intros w w' Hw Hc H; simpl in H.
  - inversion H; subst. simpl. lia.
  - destruct (step m w) as [w1|] eqn:E; [|discriminate].
    destruct (step_after_clear m w w1 Hw Hc E) as [Hc1 Hlt].
    pose proof (IH w1 w' (invariant_step m w w1 Hw E) Hc1 H). simpl. lia.
Qed.

Lemma moves_left_bound (w : World) : (moves_left w <= 3)%nat.
Proof. unfold moves_left. destruct (main_at w), (thread_at w); lia. Qed.

Lemma stuck_after_clear (w : World) :
  invariant w -> control_execute w = false -> stuck w ->
  main_at w = Returned.
Proof.
  unfold invariant, stuck. intros (I1 & I2 & [I3 I3'] & I4 & I5) Hc Hst.
  pose proof (Hst MainMove) as Hm. pose proof (Hst (ThreadMove input0)) as Ht.
  world_cases w; simpl in *; try discriminate; try reflexivity;
    exfalso; destruct (I3 eq_refl); discriminate.
Qed.

Lemma shutdown_possible (w : World) :
  invariant w -> exit_called w = true ->
  exists w', moves (shutdown_schedule w) w = Some w' /\
             main_at w' = Returned /\ thread_at w' = Finished.
Proof.
  unfold invariant. intros (I1 & I2 & [I3 I3'] & I4 & I5) He.
  world_cases w; simpl in *; try discriminate;
    try (eexists; split; [reflexivity | split; reflexivity]);
    exfalso;
    try (specialize (I5 eq_refl); discriminate);
    try (specialize (I1 eq_refl); discriminate);
    try (specialize (I2 eq_refl); discriminate);
    try (destruct (I3 eq_refl); discriminate);
    try (assert (true = false) by (apply I3'; auto); discriminate).
Qed.

(** C7.  The control thread reads [control_execute] before every iteration
    and leaves the loop when it reads [false]; after an iteration it is back
    at that read.  A quit seen while [app.exec()] runs calls [app.exit()];
    [main] leaves [app.exec()] only after such a call, clears the flag only
    after that, and returns only after the thread has left its loop, which
    it does only after the flag was cleared.  Once [app.exit()] has been
    called there is a schedule to the return of [main]; once the flag is
    cleared at most three more moves are possible, and when none is, [main]
    has returned with the thread joined. *)
Theorem control_thread_joined_before_exit :
  (forall (i : TickIn) (w w' : World),
     step (ThreadMove i) w = Some w' ->
     (thread_at w' = InBody ->
        thread_at w = AtLoad /\ control_execute w = true) /\
     (thread_at w = AtLoad -> control_execute w = false ->
        thread_at w' = Finished) /\
     (thread_at w = InBody ->
        thread_at w' = AtLoad /\ vars w' = fst (tick i (vars w)) /\
        emitted w' = emitted w ++ snd (tick i (vars w))) /\
     (thread_at w = InBody -> main_at w = InExec -> quit_button i = true ->
        exit_called w' = true /\ In AppExit (snd (tick i (vars w))))) /\
  (forall (ms : list Move) (s : Vars) (w : World),
     moves ms (start s) = Some w ->
     (main_at w = Returned -> thread_at w = Finished) /\
     (thread_at w = Finished -> control_execute w = false) /\
     (control_execute w = false ->
        main_at w = AtJoin \/ main_at w = Returned) /\
     (main_at w = AtStore \/ main_at w = AtJoin \/ main_at w = Returned ->
        exit_called w = true) /\
     (exit_called w = true ->
        exists w', moves (shutdown_schedule w) w = Some w' /\
                   main_at w' = Returned /\ thread_at w' = Finished) /\
     (control_execute w = false ->
        (forall ms' w', moves ms' w = Some w' -> (length ms' <= 3)%nat) /\
        (stuck w -> main_at w = Returned))).
Proof.
  split.
  - intros i w w' H. world_cases w; simpl in *; try discriminate;
      inversion H; subst; clear H; simpl;
      repeat split; intros; try discriminate; auto;
      try (unfold tick; simpl; rewrite H1; simpl; auto).
  - intros ms s w H.
    pose proof (invariant_moves ms (start s) w (invariant_start s) H) as Hinv.
    pose proof Hinv as (I1 & I2 & [I3 I3'] & I4 & I5).
    split; [exact I1|]. split; [exact I2|]. split; [exact I3|].
    split.
    { intros Hm. destruct (exit_called w) eqn:E; [reflexivity|].
      destruct (I4 eq_refl) as [Hb | Hb]; rewrite Hb in Hm;
        destruct Hm as [Hm | [Hm | Hm]]; discriminate. }
    split; [apply shutdown_possible; exact Hinv|].
    intros Hc. split.
    + intros ms' w' H'.
      pose proof (moves_after_clear ms' w w' Hinv Hc H').
      pose proof (moves_left_bound w). lia.
    + apply stuck_after_clear; assumption.
Qed.

Lemma control_thread_joined_before_exit_witness :
  exists w, moves quit_schedule (start (vars0 QUAD_CTRL_STAND_UP1)) = Some w /\
            main_at w = Returned /\ thread_at w = Finished.
Proof.
  destruct (moves quit_schedule (start (vars0 QUAD_CTRL_STAND_UP1)))
    as [w|] eqn:E; [|vm_compute in E; discriminate].
  exists w. split; [reflexivity|].
  assert (Hm : main_at w = Returned).
  { vm_compute in E. inversion E. reflexivity. }
  split; [exact Hm|].
  destruct control_thread_joined_before_exit as (_ & H).
  destruct (H quit_schedule (vars0 QUAD_CTRL_STAND_UP1) w E) as (H1 & _).
  exact (H1 Hm).
Defined.

End ThreadFacts.

(** * The leg model *)

Module LegFacts.
Import Eigen Leg.
Local Open Scope R_scope.

Lemma computeIK_outside (g : LegGeometry)
    (solveIK : Vector3d -> Vector3d -> IKResult) (seed target : Vector3d) :
  outside_workspace g target ->
  computeIK g solveIK seed target = NoSolution.
Proof.
  intros Hout. unfold computeIK, outside_workspace in *.
  destruct (Rlt_dec (upper_link g + lower_link g) (norm target)) as [|Hfar];
    [reflexivity|].
  destruct (Rlt_dec (norm target) (Rabs (upper_link g - lower_link g)))
    as [|Hnear]; [reflexivity|].
  destruct Hout; contradiction.
Qed.

(** C4.  For a target strictly outside the workspace, farther from the hip
    than the sum of the link lengths or nearer than their absolute
    difference, [computeIK] answers [NoSolution], whatever the solver and
    the seed: its [bool] is [false] and no angle set comes back, in
    particular none from the solver and no clamped one. *)
Theorem computeIK_fails_outside_workspace :
  forall (g : LegGeometry) (solveIK : Vector3d -> Vector3d -> IKResult)
         (seed target : Vector3d),
    outside_workspace g target ->
    computeIK g solveIK seed target = NoSolution /\
    succeeded (computeIK g solveIK seed target) = false /\
    (forall angles : Vector3d,
       computeIK g solveIK seed target <> Solution angles).
Proof.
  intros g solveIK seed target Hout.
  rewrite (computeIK_outside g solveIK seed target Hout). repeat split. intros angles. discriminate.
Qed.

Lemma norm_far_target : norm far_target = 1.
Proof.
  unfold norm, far_target. cbn [vx vy vz].
  replace (1 * 1 + 0 * 0 + 0 * 0) with 1 by ring. exact sqrt_1.
Qed.

Lemma computeIK_fails_outside_workspace_witness :
  computeIK leg0 seed_solver far_target far_target = NoSolution.
Proof.
  apply (computeIK_fails_outside_workspace leg0 seed_solver far_target
           far_target).
  left. rewrite norm_far_target. unfold leg0. cbn [upper_link lower_link].
  lra.
Defined.

Lemma joint_command_length (prev : list Vector3d) :
  forall (results : list IKResult) (leg : nat),
    length prev = length results ->
    length (fst (joint_command leg prev results)) = length prev.
Proof.
  induction prev as [|p prev IH]; intros [|r results] leg H;
    try discriminate; [reflexivity|].
  simpl. f_equal. apply IH. simpl in H. congruence.
Qed.

Lemma joint_command_reports_from (prev : list Vector3d) :
  forall (results : list IKResult) (leg j : nat),
    In j (snd (joint_command leg prev results)) -> (leg <= j)%nat.
Proof.
  induction prev as [|q prev IH]; intros [|r results] leg j Hj;
    simpl in Hj; try contradiction.
  destruct (snd (leg_command q r)).
  - destruct Hj as [<- | Hj]; [lia|]. apply IH in Hj. lia.
  - apply IH in Hj. lia.
Qed.

Lemma joint_command_nth (prev : list Vector3d) :
  forall (results : list IKResult) (leg k : nat) (p : Vector3d),
    nth_error prev k = Some p ->
    (nth_error results k = Some NoSolution ->
       nth_error (fst (joint_command leg prev results)) k = Some p /\
       In (leg + k)%nat (snd (joint_command leg prev results))) /\
    (forall a, nth_error results k = Some (Solution a) ->
       nth_error (fst (joint_command leg prev results)) k = Some a /\
       ~ In (leg + k)%nat (snd (joint_command leg prev results))).
Proof.
  induction prev as [|p0 prev IH]; intros results leg k p Hp.
  - destruct k; discriminate.
  - destruct results as [|r results].
    + split; intros; destruct k; discriminate.
    + pose proof (joint_command_reports_from prev results (S leg)) as Hge.
      destruct k as [|k].
      * simpl in Hp. inversion Hp; subst. simpl.
        rewrite Nat.add_0_r. split.
        -- intros Hr. inversion Hr; subst. simpl. split; [reflexivity|].
           left. reflexivity.
        -- intros a Hr. inversion Hr; subst. simpl. split; [reflexivity|].
           intros Hin. apply Hge in Hin. lia.
      * simpl in Hp. destruct (IH results (S leg) k p Hp) as (A & B).
        simpl. replace (leg + S k)%nat with (S leg + k)%nat by lia. split.
        -- intros Hr. destruct (A Hr) as [A1 A2]. split; [exact A1|].
           destruct (snd (leg_command p0 r)); [right|]; exact A2.
        -- intros a Hr. destruct (B a Hr) as [B1 B2]. split; [exact B1|].
           intros Hin. apply B2.
           destruct (snd (leg_command p0 r)); [|exact Hin].
           destruct Hin as [Hin | Hin]; [lia | exact Hin].
Qed.

(** C5.  The command vector of a tick has one entry for every leg of the
    previous one, so it is never partial; for a leg whose query failed the
    entry is the previous tick's and the leg is in the report; for a leg
    whose query succeeded the entry is the solution and the leg is not
    reported.  A target outside a leg's workspace is such a failure. *)
Theorem failed_leg_holds_previous_command :
  forall (prev : list Vector3d) (results : list IKResult),
    length prev = length results ->
    let command := fst (joint_command 0 prev results) in
    let reported := snd (joint_command 0 prev results) in
    length command = length prev /\
    (forall (k : nat) (p : Vector3d),
       nth_error prev k = Some p ->
       nth_error results k = Some NoSolution ->
       nth_error command k = Some p /\ In k reported) /\
    (forall (k : nat) (p a : Vector3d),
       nth_error prev k = Some p ->
       nth_error results k = Some (Solution a) ->
       nth_error command k = Some a /\ ~ In k reported) /\
    (forall (g : LegGeometry) (solveIK : Vector3d -> Vector3d -> IKResult)
            (seed target p : Vector3d),
       outside_workspace g target ->
       leg_command p (computeIK g solveIK seed target) = (p, true)).
Proof.
  intros prev results Hlen. cbv zeta.
  split; [apply joint_command_length; exact Hlen|].
  split; [|split].
  - intros k p Hp Hr.
    destruct (joint_command_nth prev results 0 k p Hp) as (A & _).
    exact (A Hr).
  - intros k p a Hp Hr.
    destruct (joint_command_nth prev results 0 k p Hp) as (_ & B).
    exact (B a Hr).
  - intros g solveIK seed target p Hout.
    rewrite (computeIK_outside g solveIK seed target Hout). reflexivity.
Qed.

Lemma failed_leg_holds_previous_command_witness :
  nth_error (fst (joint_command 0 [UnitX; UnitY]
                                [NoSolution; Solution UnitZ])) 0
  = Some UnitX /\
  In 0%nat (snd (joint_command 0 [UnitX; UnitY] [NoSolution; Solution UnitZ])).
Proof.
  destruct (failed_leg_holds_previous_command [UnitX; UnitY]
              [NoSolution; Solution UnitZ] eq_refl) as (_ & H & _).
  exact (H 0%nat UnitX eq_refl eq_refl).
Defined.

End LegFacts.

(** * More on the control loop *)

Module FlowFacts.
Import Eigen Control Threads Flow ControlFacts ThreadFacts.

(** ** The states the loop visits *)

Lemma tick_stage (i : TickIn) (s : Vars) (n : nat) :
  stage (cur_ctrl_state s) = Some n ->
  exists m, stage (cur_ctrl_state (fst (tick i s))) = Some m /\
            (n <= m <= S n)%nat.
Proof.
  intros Hn.
  destruct (stand_up_next (cur_ctrl_state s)) as [c'|] eqn:Hnext.
  - rewrite (tick_stand_up_state i s c' Hnext).
    destruct (stand_up_due i s).
    + destruct (cur_ctrl_state s); inversion Hnext; subst; inversion Hn;
        subst; eexists; (split; [reflexivity | lia]).
    + exists n. split; [exact Hn | lia].
  - assert (Hp : cur_ctrl_state s = QUAD_CTRL_PASSIVE_ORIENT).
    { destruct (cur_ctrl_state s); try discriminate; reflexivity. }
    destruct (tick_passive i s Hp) as (T1 & _).
    rewrite T1. rewrite Hp in Hn. exists n. split; [exact Hn | lia].
Qed.

Lemma trajectory_climbs (ins : list TickIn) :
  forall (s : Vars) (n : nat),
    stage (cur_ctrl_state s) = Some n -> climbs n (trajectory ins s) = true.
Proof.
  induction ins as [|i ins IH]; intros s n Hn; [reflexivity|].
  rewrite trajectory_cons. cbn [climbs].
  destruct (tick_stage i s n Hn) as (m & Hm & Hle).
  rewrite Hm, (IH _ m Hm).
  destruct (Nat.leb_spec n m); [|lia].
  destruct (Nat.leb_spec m (S n)); [|lia]. reflexivity.
Qed.

Lemma climbs_staged (l : list ctrl_state_type) :
  forall n c, climbs n l = true -> In c l -> stage c <> None.
Proof.
  induction l as [|c0 l IH]; intros n c H Hin; [contradiction|].
  cbn [climbs] in H. destruct (stage c0) as [m|] eqn:E; [|discriminate].
  apply andb_prop in H. destruct H as [_ H].
  destruct Hin as [<- | Hin]; [congruence|]. exact (IH m c H Hin).
Qed.

(** X1.  From the state the thread starts in, the loop visits only the
    three stand-up states and the passive-orientation state, in that order,
    one step at a time and never back; the gait states, the tele-operated
    orientation state and the two hexapod states are never entered,
    whatever the clock and the inputs are. *)
Theorem loop_visits_stand_up_then_passive :
  forall (ins : list TickIn) (s : Vars),
    cur_ctrl_state s = QUAD_CTRL_STAND_UP1 ->
    climbs 0 (trajectory ins s) = true /\
    (forall c, In c (trajectory ins s) ->
       c = QUAD_CTRL_STAND_UP1 \/ c = QUAD_CTRL_STAND_UP2 \/
       c = QUAD_CTRL_STAND_UP3 \/ c = QUAD_CTRL_PASSIVE_ORIENT) /\
    (forall m t d, ~ In (RunTest m t d) (trace ins s)) /\
    (forall rv lv, ~ In (PrintAxes rv lv) (trace ins s)).
Proof.
  intros ins s Hs.
  assert (H0 : stage (cur_ctrl_state s) = Some 0%nat) by (rewrite Hs; reflexivity).
  pose proof (trajectory_climbs ins s 0 H0) as Hc.
  split; [exact Hc|]. split.
  - intros c Hin. pose proof (climbs_staged _ 0%nat c Hc Hin) as Hst.
    destruct c; simpl in Hst; try congruence; auto.
  - clear Hc Hs. revert s H0. generalize 0%nat.
    induction ins as [|i ins IH]; intros n s Hn.
    + split; intros; intros [].
    + destruct (tick_stage i s n Hn) as (m & Hm & _).
      destruct (IH m _ Hm) as [I1 I2].
      assert (Hev : (forall md t d, ~ In (RunTest md t d) (snd (tick i s))) /\
                    (forall rv lv, ~ In (PrintAxes rv lv) (snd (tick i s)))).
      { unfold tick, dispatch. simpl.
        destruct (cur_ctrl_state s); try discriminate; simpl;
          destruct (quit_button i); simpl;
          repeat match goal with
                 | |- context [if ?b <=? ?c then _ else _] =>
                     destruct (b <=? c); simpl
                 end;
          split; intros; intro Hin;
          repeat (destruct Hin as [Hin | Hin]; [discriminate|]);
          exact Hin. }
      destruct Hev as [E1 E2].
      split; intros; rewrite trace_cons; intro Hin;
        apply in_app_or in Hin; destruct Hin as [Hin | Hin].
      * exact (E1 _ _ _ Hin).
      * exact (I1 _ _ _ Hin).
      * exact (E2 _ _ Hin).
      * exact (I2 _ _ Hin).
Qed.

Lemma loop_visits_stand_up_then_passive_witness :
  climbs 0 (trajectory (sim_inputs (fun _ => input0) 379 3)
                       (vars0 QUAD_CTRL_STAND_UP1)) = true.
Proof.
  destruct (loop_visits_stand_up_then_passive
              (sim_inputs (fun _ => input0) 379 3)
              (vars0 QUAD_CTRL_STAND_UP1) eq_refl) as [H _].
  exact H.
Defined.

(** ** The hexapod start, kept in the [switch] *)

(** X2.  From [HEXA_CTRL_STAND_UP_PLAN] an iteration plans the stand-up
    trajectory, records the entry time and moves to [HEXA_CTRL_STAND_UP];
    that state runs the trajectory and moves to the left gait state once
    [startup_seconds] have passed, without recording a new entry time.  So,
    with a clock that does not go back, the first iteration in the left gait
    state calls [runTest] with a time of at least [startup_seconds] and
    hands over to the right gait state at once. *)
Theorem hexa_start_hands_over_at_once :
  (forall (i : TickIn) (s : Vars),
     cur_ctrl_state s = HEXA_CTRL_STAND_UP_PLAN ->
     cur_ctrl_state (fst (tick i s)) = HEXA_CTRL_STAND_UP /\
     state_enter_time (fst (tick i s)) = clock_enter i /\
     snd (tick i s) = preamble i s ++ [PlanStandUpTraj startup_seconds]) /\
  (forall (i : TickIn) (s : Vars),
     cur_ctrl_state s = HEXA_CTRL_STAND_UP ->
     let elapsed := clock_state i - state_enter_time s in
     state_enter_time (fst (tick i s)) = state_enter_time s /\
     snd (tick i s) =
       preamble i s ++ [ExecStandUpTraj elapsed; PrintRunTime elapsed] /\
     cur_ctrl_state (fst (tick i s)) =
       (if startup_seconds <=? elapsed then QUAD_CTRL_NORMAL_LEFT
        else HEXA_CTRL_STAND_UP)) /\
  (forall (i j : TickIn) (s : Vars),
     cur_ctrl_state s = HEXA_CTRL_STAND_UP ->
     startup_seconds <= clock_state i - state_enter_time s ->
     clock_state i <= clock_state j ->
     let s1 := fst (tick i s) in
     let t := clock_state j - state_enter_time s in
     cur_ctrl_state s1 = QUAD_CTRL_NORMAL_LEFT /\
     startup_seconds <= t /\
     snd (tick j s1) =
       preamble j s1 ++
       [RunTest swing_mode_virtualLeg1 t leg_swing_time;
        PrepareTrajectories swing_mode_virtualLeg2 leg_swing_time] /\
     cur_ctrl_state (fst (tick j s1)) = QUAD_CTRL_NORMAL_RIGHT).
Proof.
  assert (Hplan : forall i s, cur_ctrl_state s = HEXA_CTRL_STAND_UP_PLAN ->
            cur_ctrl_state (fst (tick i s)) = HEXA_CTRL_STAND_UP /\
            state_enter_time (fst (tick i s)) = clock_enter i /\
            snd (tick i s) = preamble i s ++ [PlanStandUpTraj startup_seconds]).
  { intros i s Hs. destruct s. cbn [cur_ctrl_state] in Hs. subst.
    repeat split; reflexivity. }
  assert (Hup : forall i s, cur_ctrl_state s = HEXA_CTRL_STAND_UP ->
            let elapsed := clock_state i - state_enter_time s in
            state_enter_time (fst (tick i s)) = state_enter_time s /\
            snd (tick i s) =
              preamble i s ++ [ExecStandUpTraj elapsed; PrintRunTime elapsed] /\
            cur_ctrl_state (fst (tick i s)) =
              (if startup_seconds <=? elapsed then QUAD_CTRL_NORMAL_LEFT
               else HEXA_CTRL_STAND_UP)).
  { intros i s Hs. destruct s. cbn [cur_ctrl_state] in Hs. subst.
    cbv zeta. unfold tick, dispatch, preamble. simpl.
    destruct (startup_seconds <=? clock_state i - state_enter_time0);
      repeat split; reflexivity. }
  split; [exact Hplan|]. split; [exact Hup|].
  intros i j s Hs Hdue Hmono. cbv zeta.
  destruct (Hup i s Hs) as (U1 & _ & U3).
  apply Z.leb_le in Hdue. rewrite Hdue in U3.
  assert (Hrow : gait_row (cur_ctrl_state (fst (tick i s))) =
                 Some (swing_mode_virtualLeg1, QUAD_CTRL_NORMAL_RIGHT,
                       swing_mode_virtualLeg2)) by (rewrite U3; reflexivity).
  destruct (tick_gait j (fst (tick i s)) _ _ _ Hrow) as (G1 & _ & G3).
  apply Z.leb_le in Hdue.
  assert (Hj : gait_due j (fst (tick i s)) = true).
  { unfold gait_due. rewrite U1. apply Z.leb_le.
    unfold leg_swing_time, startup_seconds in *. lia. }
  rewrite Hj in G1, G3. rewrite U1 in G3.
  split; [exact U3|]. split; [lia|]. split; [exact G3 | exact G1].
Qed.

Lemma hexa_start_hands_over_at_once_witness :
  cur_ctrl_state
    (fst (tick (at_time 2000000000 input0)
               (fst (tick (at_time 1900000000 input0)
                          (vars0 HEXA_CTRL_STAND_UP)))))
  = QUAD_CTRL_NORMAL_RIGHT.
Proof.
  destruct hexa_start_hands_over_at_once as (_ & _ & H).
  destruct (H (at_time 1900000000 input0) (at_time 2000000000 input0)
              (vars0 HEXA_CTRL_STAND_UP) eq_refl)
    as (_ & _ & _ & H4).
  - vm_compute. discriminate.
  - vm_compute. discriminate.
  - exact H4.
Defined.

(** ** Entry times and the quit button *)

(** X3.  An iteration writes [state_enter_time] only when it changes the
    control state; and when it changes the control state it sets the entry
    time to the clock it reads then, except on the way out of
    [HEXA_CTRL_STAND_UP], where the entry time is kept. *)
Theorem entry_time_follows_state :
  forall (i : TickIn) (s : Vars),
    let s' := fst (tick i s) in
    (cur_ctrl_state s' = cur_ctrl_state s ->
       state_enter_time s' = state_enter_time s) /\
    (cur_ctrl_state s' <> cur_ctrl_state s ->
       cur_ctrl_state s <> HEXA_CTRL_STAND_UP ->
       state_enter_time s' = clock_enter i) /\
    (cur_ctrl_state s = HEXA_CTRL_STAND_UP ->
       state_enter_time s' = state_enter_time s).
Proof.
  intros i s. cbv zeta.
  destruct s as [c e ct rt pt d0 tv rv f b bb db cr ta ax].
  unfold tick, dispatch. simpl.
  destruct c; simpl;
    repeat match goal with
           | |- context [if ?x <=? ?y then _ else _] =>
               destruct (x <=? y); simpl
           end;
    repeat split; intros; try reflexivity; try congruence.
Qed.

Lemma entry_time_follows_state_witness :
  state_enter_time
    (fst (tick (at_time 1900000000 input0) (vars0 QUAD_CTRL_STAND_UP1)))
  = 1900000000.
Proof.
  destruct (entry_time_follows_state (at_time 1900000000 input0)
              (vars0 QUAD_CTRL_STAND_UP1)) as (_ & H & _).
  apply H; vm_compute; discriminate.
Defined.

(** X4.  The quit button does one thing in the loop: [app.exit()] is
    called in exactly the iterations that see it pushed.  The control
    state, every variable and the calls made on the robot in that iteration
    are the same as without it: the iteration that sees the quit still
    sends the commands of its state. *)
Theorem quit_only_calls_app_exit :
  forall (b : bool) (i : TickIn) (s : Vars),
    fst (tick (with_quit_button b i) s) = fst (tick i s) /\
    filter robot_call (snd (tick (with_quit_button b i) s)) =
      filter robot_call (snd (tick i s)) /\
    (In AppExit (snd (tick i s)) <-> quit_button i = true).
Proof.
  intros b i s.
  destruct s as [c e ct rt pt d0 tv rv f bd bb db cr ta ax].
  unfold tick, dispatch. simpl.
  destruct c; simpl;
    repeat match goal with
           | |- context [if ?x <=? ?y then _ else _] =>
               destruct (x <=? y); simpl
           end;
    (split; [reflexivity|]);
    (split; [destruct b, (quit_button i); reflexivity|]);
    destruct (quit_button i); simpl; split; intros H; auto;
    try discriminate;
    repeat (destruct H as [H | H]; [discriminate|]); contradiction.
Qed.

Lemma quit_only_calls_app_exit_witness :
  In AppExit (snd (tick (with_quit_button true input0)
                        (vars0 QUAD_CTRL_PASSIVE_ORIENT))).
Proof.
  destruct (quit_only_calls_app_exit true (with_quit_button true input0)
              (vars0 QUAD_CTRL_PASSIVE_ORIENT)) as (_ & _ & H).
  apply H. reflexivity.
Defined.

(** ** Body orientation reads *)

Lemma body_reads_app (a b : list Event) :
  forall st st', body_reads st a = Some st' ->
    body_reads st (a ++ b) = body_reads st' b.
Proof.
  induction a as [|e a IH]; intros st st' H.
  - simpl in H. inversion H. reflexivity.
  - destruct e; simpl in *; try (apply IH; exact H).
    destruct st; [apply IH; exact H | discriminate].
Qed.

(** One iteration: before [startBodyRUpdate] has been called the loop is
    in one of the first two stand-up states, and an iteration keeps that or
    calls it before any read. *)
Lemma tick_body_reads (i : TickIn) (s : Vars) (st : bool) (n : nat) :
  stage (cur_ctrl_state s) = Some n ->
  (st = false -> (n <= 1)%nat) ->
  exists st' m,
    body_reads st (snd (tick i s)) = Some st' /\
    stage (cur_ctrl_state (fst (tick i s))) = Some m /\
    (st' = false -> (m <= 1)%nat).
Proof.
  intros Hn Hst.
  destruct s as [c e ct rt pt d0 tv rv f bd bb db cr ta ax].
  cbn [cur_ctrl_state] in Hn.
  unfold tick, dispatch. simpl.
  destruct c; simpl in Hn; try discriminate; inversion Hn; subst; simpl;
    destruct (quit_button i); simpl;
    repeat match goal with
           | |- context [if ?x <=? ?y then _ else _] =>
               destruct (x <=? y); simpl
           end;
    try (destruct st; [|specialize (Hst eq_refl); lia]);
    do 2 eexists; (split; [reflexivity|]); (split; [reflexivity|]);
    intros; try discriminate; try lia; auto.
Qed.

(** X5.  In every run from the state the thread starts in,
    [quadruped->getBodyR()] is never called before
    [quadruped->startBodyRUpdate()] has been called. *)
Theorem body_orientation_read_after_update_started :
  forall (ins : list TickIn) (s : Vars),
    cur_ctrl_state s = QUAD_CTRL_STAND_UP1 ->
    body_reads false (trace ins s) <> None /\
    (In GetBodyR (trace ins s) -> In StartBodyRUpdate (trace ins s)).
Proof.
  intros ins s Hs.
  assert (Hgen : forall ins s st n,
            stage (cur_ctrl_state s) = Some n ->
            (st = false -> (n <= 1)%nat) ->
            body_reads st (trace ins s) <> None).
  { clear. induction ins as [|i ins IH]; intros s st n Hn Hst.
    - discriminate.
    - rewrite trace_cons.
      destruct (tick_body_reads i s st n Hn Hst) as (st' & m & R & Hm & Hst').
      rewrite (body_reads_app _ _ st st' R). exact (IH _ st' m Hm Hst'). }
  assert (H0 : body_reads false (trace ins s) <> None).
  { apply (Hgen ins s false 0%nat); [rewrite Hs; reflexivity | lia]. }
  split; [exact H0|].
  revert H0. generalize (trace ins s). intros evs. clear.
  induction evs as [|e evs IH]; intros H Hin; [contradiction|].
  destruct e; simpl in *;
    try (destruct Hin as [Hin | Hin]; [discriminate|]; right; exact (IH H Hin));
    try (left; reflexivity).
  exfalso. apply H. reflexivity.
Qed.

Lemma body_orientation_read_after_update_started_witness :
  body_reads false
    (trace (sim_inputs (fun _ => input0) 1 2) (vars0 QUAD_CTRL_STAND_UP1))
  <> None.
Proof.
  destruct (body_orientation_read_after_update_started
              (sim_inputs (fun _ => input0) 1 2)
              (vars0 QUAD_CTRL_STAND_UP1) eq_refl) as [H _].
  exact H.
Defined.

(** ** What an iteration depends on *)

Lemma tick_core (i : TickIn) (s1 s2 : Vars) :
  core s1 = core s2 ->
  snd (tick i s1) = snd (tick i s2) /\
  core (fst (tick i s1)) = core (fst (tick i s2)).
Proof.
  destruct s1 as [c e ct rt pt d0 tv rv f bd bb db cr ta ax].
  destruct s2 as [c2 e2 ct2 rt2 pt2 d2 tv2 rv2 f2 bd2 bb2 db2 cr2 ta2 ax2].
  unfold core. cbn [cur_ctrl_state state_enter_time prev_time balance_body_R
                    control_R].
  intros H. inversion H; subst.
  unfold tick, dispatch. simpl.
  destruct c2; simpl;
    repeat match goal with
           | |- context [if ?x <=? ?y then _ else _] =>
               destruct (x <=? y); simpl
           end; split; reflexivity.
Qed.

(** X6.  What the loop does depends on five of its variables only: the
    control state, the entry time, the previous iteration's time, the
    balance target and the control rotation.  Two runs on the same inputs
    from stores that agree on these emit the same events and agree on them
    at the end; the other variables ([state_curr_time], [state_run_time],
    [dt], the velocity commands, [isFinished], [bodyR], [diff_body_R],
    [tmp_aa], [axis_aa]) are written before they are read, or never read. *)
Theorem loop_depends_on_core_variables :
  forall (ins : list TickIn) (s1 s2 : Vars),
    core s1 = core s2 ->
    trace ins s1 = trace ins s2 /\
    trajectory ins s1 = trajectory ins s2 /\
    core (final ins s1) = core (final ins s2).
Proof.
  induction ins as [|i ins IH]; intros s1 s2 H.
  - repeat split. exact H.
  - destruct (tick_core i s1 s2 H) as [T1 T2].
    destruct (IH _ _ T2) as (R1 & R2 & R3).
    rewrite !trace_cons, !trajectory_cons, !final_cons, T1, R1, R2, R3.
    repeat split. f_equal.
    unfold core in T2. congruence.
Qed.

Lemma loop_depends_on_core_variables_witness :
  trace [input0; input_tilted] (vars0 QUAD_CTRL_PASSIVE_ORIENT)
  = trace [input0; input_tilted]
          (set_isFinished true (vars0 QUAD_CTRL_PASSIVE_ORIENT)).
Proof.
  destruct (loop_depends_on_core_variables [input0; input_tilted]
              (vars0 QUAD_CTRL_PASSIVE_ORIENT)
              (set_isFinished true (vars0 QUAD_CTRL_PASSIVE_ORIENT))
              eq_refl) as [H _].
  exact H.
Defined.

(** ** Rotations handed to [reOrient] *)

Section ProperRotations.
Import NsatzTactic RNsatz.
Local Open Scope R_scope.

Lemma mmul_Identity_r (a : Matrix3d) : mmul a Identity = a.
Proof.
  unfold mmul, Identity. cbn [m00 m01 m02 m10 m11 m12 m20 m21 m22].
  apply matrix_ext; cbn [m00 m01 m02 m10 m11 m12 m20 m21 m22]; ring.
Qed.

Lemma mmul_Identity_l (a : Matrix3d) : mmul Identity a = a.
Proof.
  unfold mmul, Identity. cbn [m00 m01 m02 m10 m11 m12 m20 m21 m22].
  apply matrix_ext; cbn [m00 m01 m02 m10 m11 m12 m20 m21 m22]; ring.
Qed.

Lemma det_mmul (a b : Matrix3d) : det (mmul a b) = det a * det b.
Proof.
  unfold det, mmul. cbn [m00 m01 m02 m10 m11 m12 m20 m21 m22]. ring.
Qed.

Lemma proper_Identity : proper_rotation Identity.
Proof.
  split.
  - rewrite mmul_Identity_l. reflexivity.
  - unfold det, Identity. cbn [m00 m01 m02 m10 m11 m12 m20 m21 m22]. ring.
Qed.

Lemma proper_mmul (a b : Matrix3d) :
  proper_rotation a -> proper_rotation b -> proper_rotation (mmul a b).
Proof.
  intros [Ha Da] [Hb Db]. split.
  - rewrite transpose_mmul, mmul_assoc, <- (mmul_assoc b), Hb,
      mmul_Identity_l. exact Ha.
  - rewrite det_mmul, Da, Db. ring.
Qed.

Lemma proper_toRotationMatrix (t : R) (a : Vector3d) :
  unit_vector a -> proper_rotation (toRotationMatrix (mkAngleAxisd t a)).
Proof.
  intros Ha. split.
  - rewrite transpose_toRotationMatrix, (mmul_same_axis t (- t) a Ha).
    rewrite Rplus_opp_r. apply toRotationMatrix_zero.
  - unfold unit_vector in Ha. unfold det, toRotationMatrix, vscale.
    cbn [angle axis vx vy vz m00 m01 m02 m10 m11 m12 m20 m21 m22].
    pose proof (sin2_cos2 t) as Hsc. unfold Rsqr in Hsc.
    destruct a as [x y z]. cbn [vx vy vz] in *.
    set (c := cos t) in *. set (s := sin t) in *. clearbody c s.
    nsatz.
Qed.

(** Whatever the quaternion, the axis of the conversion has length one. *)
Lemma aa_of_quat_unit_axis (q : Quaterniond) :
  unit_vector (axis (aa_of_quat q)).
Proof.
  unfold aa_of_quat. cbv zeta. unfold Eigen.norm. cbn [vx vy vz].
  set (S := qx q * qx q + qy q * qy q + qz q * qz q).
  destruct (Req_dec_T (sqrt S) 0) as [H0 | Hn].
  - unfold unit_vector. cbn [axis vx vy vz]. ring.
  - assert (HS : 0 <= S) by (unfold S; nra).
    pose proof (sqrt_sqrt S HS) as Hsq.
    unfold unit_vector, vdiv. cbn [axis vx vy vz].
    destruct (Rlt_dec (qw q) 0).
    + replace (qx q / - sqrt S * (qx q / - sqrt S) +
               qy q / - sqrt S * (qy q / - sqrt S) +
               qz q / - sqrt S * (qz q / - sqrt S))
        with (S / (sqrt S * sqrt S)) by (unfold S; field; exact Hn).
      rewrite Hsq. field. rewrite <- Hsq. nra.
    + replace (qx q / sqrt S * (qx q / sqrt S) +
               qy q / sqrt S * (qy q / sqrt S) +
               qz q / sqrt S * (qz q / sqrt S))
        with (S / (sqrt S * sqrt S)) by (unfold S; field; exact Hn).
      rewrite Hsq. field. rewrite <- Hsq. nra.
Qed.

Lemma proper_correction (d : Matrix3d) :
  proper_rotation (toRotationMatrix (reduced_difference d)).
Proof.
  unfold reduced_difference. apply proper_toRotationMatrix.
  cbn [axis]. unfold fromRotationMatrix. apply aa_of_quat_unit_axis.
Qed.

Lemma proper_target_body_R (rv lv : R) : proper_rotation (target_body_R rv lv).
Proof.
  assert (E : target_body_R rv lv =
              mmul (rotY (pitch_angle rv)) (rotX (roll_angle lv))).
  { rewrite target_body_R_entries.
    unfold rotY, rotX, toRotationMatrix, mmul, vscale, UnitX, UnitY.
    cbn [angle axis vx vy vz m00 m01 m02 m10 m11 m12 m20 m21 m22].
    apply matrix_ext; cbn [m00 m01 m02 m10 m11 m12 m20 m21 m22]; ring. }
  rewrite E. apply proper_mmul; apply proper_toRotationMatrix;
    unfold unit_vector, UnitX, UnitY; cbn [vx vy vz]; ring.
Qed.

End ProperRotations.

Lemma tick_control_R (i : TickIn) (s : Vars) :
  control_R (fst (tick i s)) =
    (match cur_ctrl_state s with
     | QUAD_CTRL_PASSIVE_ORIENT =>
         mmul (control_R s)
              (toRotationMatrix
                 (reduced_difference
                    (mmul (balance_body_R s) (transpose (body_R i)))))
     | _ => control_R s
     end) /\
  (forall m, In (ReOrient m) (snd (tick i s)) ->
     (cur_ctrl_state s = QUAD_CTRL_PASSIVE_ORIENT /\
      m = control_R (fst (tick i s))) \/
     (cur_ctrl_state s = QUAD_CTRL_ORIENT /\
      m = target_body_R (right_vert_raw i) (left_vert_raw i))).
Proof.
  destruct s as [c e ct rt pt d0 tv rv f bd bb db cr ta ax].
  unfold tick, dispatch. simpl.
  destruct c; simpl;
    repeat match goal with
           | |- context [if ?x <=? ?y then _ else _] =>
               destruct (x <=? y); simpl
           end;
    (split; [reflexivity|]); intros m Hin;
    destruct (quit_button i); simpl in Hin;
    repeat (destruct Hin as [Hin | Hin];
            [try discriminate; inversion Hin; subst; auto|]);
    try contradiction.
Qed.

(** X7.  [reOrient] is only ever called with a rotation matrix.  In any
    run from a store whose control rotation is a rotation (it starts as the
    identity), whatever the body orientations read are, the control
    rotation stays orthonormal with determinant one, and so is the argument
    of every [reOrient] call, in the passive-orientation state and in the
    tele-operated one. *)
Theorem reOrient_gets_proper_rotations :
  forall (ins : list TickIn) (s : Vars),
    proper_rotation (control_R s) ->
    proper_rotation (control_R (final ins s)) /\
    (forall m, In (ReOrient m) (trace ins s) -> proper_rotation m).
Proof.
  induction ins as [|i ins IH]; intros s Hs.
  - split; [exact Hs | intros m []].
  - destruct (tick_control_R i s) as [Tc Tr].
    assert (Hs' : proper_rotation (control_R (fst (tick i s)))).
    { rewrite Tc. destruct (cur_ctrl_state s); try exact Hs.
      apply proper_mmul; [exact Hs | apply proper_correction]. }
    destruct (IH _ Hs') as [I1 I2].
    rewrite final_cons, trace_cons. split; [exact I1|].
    intros m Hin. apply in_app_or in Hin. destruct Hin as [Hin | Hin].
    + destruct (Tr m Hin) as [[_ ->] | [_ ->]];
        [exact Hs' | apply proper_target_body_R].
    + exact (I2 m Hin).
Qed.

Lemma reOrient_gets_proper_rotations_witness :
  proper_rotation
    (control_R (final [input_tilted; input_tilted] (passive0 0))).
Proof.
  destruct (reOrient_gets_proper_rotations [input_tilted; input_tilted]
              (passive0 0) proper_Identity) as [H _].
  exact H.
Defined.

(** ** The passive-orientation state at rest and against a fixed reading *)

Section PassiveEdges.
Local Open Scope R_scope.

(** Eigen's conversion of the identity: angle zero about the X axis. *)
Lemma fromRotationMatrix_Identity :
  fromRotationMatrix Identity = mkAngleAxisd 0 UnitX.
Proof.
  unfold fromRotationMatrix, quat_of_matrix, Identity.
  cbn [m00 m01 m02 m10 m11 m12 m20 m21 m22].
  destruct (Rlt_dec 0 (1 + 1 + 1)) as [_ | H]; [|lra].
  unfold aa_of_quat. cbv zeta. unfold norm. cbn [qw qx qy qz vx vy vz].
  replace ((0 - 0) * (0.5 / sqrt (1 + 1 + 1 + 1)) *
           ((0 - 0) * (0.5 / sqrt (1 + 1 + 1 + 1))) +
           (0 - 0) * (0.5 / sqrt (1 + 1 + 1 + 1)) *
           ((0 - 0) * (0.5 / sqrt (1 + 1 + 1 + 1))) +
           (0 - 0) * (0.5 / sqrt (1 + 1 + 1 + 1)) *
           ((0 - 0) * (0.5 / sqrt (1 + 1 + 1 + 1)))) with 0 by ring.
  rewrite sqrt_0.
  destruct (Req_dec_T 0 0) as [_ | H]; [reflexivity | contradiction].
Qed.

Lemma correction_of_Identity :
  toRotationMatrix (reduced_difference Identity) = Identity.
Proof.
  unfold reduced_difference. rewrite fromRotationMatrix_Identity.
  cbn [angle axis]. replace (balance_gain * 0) with 0 by ring.
  apply toRotationMatrix_zero.
Qed.

(** X8.  At rest the passive-orientation state leaves the command alone:
    when the balance target is orthonormal and every body orientation read
    is the target itself, the discrepancy is the identity, the correction
    has angle zero, and the control rotation after any number of
    iterations is the one before. *)
Theorem passive_at_target_keeps_command :
  forall (ins : list TickIn) (s : Vars),
    cur_ctrl_state s = QUAD_CTRL_PASSIVE_ORIENT ->
    mmul (balance_body_R s) (transpose (balance_body_R s)) = Identity ->
    Forall (fun i => body_R i = balance_body_R s) ins ->
    control_R (final ins s) = control_R s /\
    (forall i, In i ins -> angle (tmp_aa (fst (tick i s))) = 0) /\
    (forall m, In (ReOrient m) (trace ins s) -> m = control_R s).
Proof.
  induction ins as [|i ins IH]; intros s Hs Ho Hall.
  - repeat split; intros ? [].
  - inversion Hall as [|? ? Hi Hrest]; subst.
    destruct (tick_passive i s Hs) as (T1 & T2 & _ & _ & T5 & T6 & T7).
    assert (Hc : control_R (fst (tick i s)) = control_R s).
    { rewrite T6, Hi, Ho, correction_of_Identity. apply mmul_Identity_r. }
    assert (Ha : angle (tmp_aa (fst (tick i s))) = 0).
    { rewrite T5, Hi, Ho. unfold reduced_difference.
      rewrite fromRotationMatrix_Identity. cbn [angle]. ring. }
    destruct (IH (fst (tick i s)) T1) as (I1 & I2 & I3).
    { rewrite T2. exact Ho. }
    { rewrite T2. exact Hrest. }
    rewrite final_cons, trace_cons. split; [congruence|]. split.
    + intros j [<- | Hj]; [exact Ha|].
      destruct (tick_passive j s Hs) as (_ & _ & _ & _ & J5 & _).
      rewrite J5. rewrite Forall_forall in Hrest. rewrite (Hrest j Hj), Ho.
      unfold reduced_difference. rewrite fromRotationMatrix_Identity.
      cbn [angle]. ring.
    + intros m Hin. apply in_app_or in Hin. destruct Hin as [Hin | Hin].
      * rewrite T7 in Hin. apply in_app_or in Hin.
        destruct Hin as [Hin | Hin].
        -- unfold preamble in Hin. destruct (quit_button i); simpl in Hin;
             repeat (destruct Hin as [Hin | Hin]; [discriminate|]);
             contradiction.
        -- simpl in Hin.
           repeat (destruct Hin as [Hin | Hin];
                   [try discriminate; inversion Hin; subst|]);
             [|contradiction].
           rewrite <- T6. exact Hc.
      * rewrite (I3 m Hin). exact Hc.
Qed.

Lemma passive_at_target_keeps_command_witness :
  control_R (final [input0; input0] (passive0 0%Z)) = Identity.
Proof.
  assert (Ho : mmul (balance_body_R (passive0 0%Z))
                    (transpose (balance_body_R (passive0 0%Z))) = Identity).
  { change (balance_body_R (passive0 0%Z)) with Identity.
    apply mmul_Identity_l. }
  destruct (passive_at_target_keeps_command [input0; input0] (passive0 0%Z)
              eq_refl Ho) as [H _].
  - repeat constructor.
  - exact H.
Defined.

Lemma passive_fixed_reading_step (i : TickIn) (s : Vars) (body : Matrix3d)
    (t p : R) (a : Vector3d) :
  unit_vector a -> 0 < t < PI ->
  cur_ctrl_state s = QUAD_CTRL_PASSIVE_ORIENT ->
  mmul (balance_body_R s) (transpose body) =
    toRotationMatrix (mkAngleAxisd t a) ->
  control_R s = toRotationMatrix (mkAngleAxisd p a) ->
  body_R i = body ->
  control_R (fst (tick i s)) =
    toRotationMatrix (mkAngleAxisd (p + balance_gain * t) a).
Proof.
  intros Ha Ht Hs Hd Hc Hb.
  destruct (tick_passive i s Hs) as (_ & _ & _ & _ & _ & T6 & _).
  rewrite T6, Hb, Hd, Hc. unfold reduced_difference.
  rewrite (fromRotationMatrix_toRotationMatrix t a Ha Ht). cbn [angle axis].
  apply mmul_same_axis. exact Ha.
Qed.

(** X9.  The passive-orientation state integrates without bound.  While
    the body orientation read stays the same, at an angle in (0, pi) from
    the target about a unit axis, every iteration turns the commanded
    rotation by another 0.031 of that angle about that axis: from the
    identity, after n iterations the command is the rotation by
    n x 0.031 x angle. *)
Theorem passive_fixed_reading_winds_up :
  forall (ins : list TickIn) (s : Vars) (body : Matrix3d) (t : R)
         (a : Vector3d),
    unit_vector a -> 0 < t < PI ->
    cur_ctrl_state s = QUAD_CTRL_PASSIVE_ORIENT ->
    control_R s = Identity ->
    mmul (balance_body_R s) (transpose body) =
      toRotationMatrix (mkAngleAxisd t a) ->
    Forall (fun i => body_R i = body) ins ->
    control_R (final ins s) =
      toRotationMatrix (mkAngleAxisd (INR (length ins) * (0.031 * t)) a).
Proof.
  intros ins s body t a Ha Ht Hs Hc Hd Hall.
  assert (Hgen : forall ins s p,
            cur_ctrl_state s = QUAD_CTRL_PASSIVE_ORIENT ->
            control_R s = toRotationMatrix (mkAngleAxisd p a) ->
            mmul (balance_body_R s) (transpose body) =
              toRotationMatrix (mkAngleAxisd t a) ->
            Forall (fun i => body_R i = body) ins ->
            control_R (final ins s) =
              toRotationMatrix
                (mkAngleAxisd (p + INR (length ins) * (balance_gain * t)) a)).
  { clear ins s Hs Hc Hd Hall.
    induction ins as [|i ins IH]; intros s p Hs Hc Hd Hall.
    - cbn [length INR final run fst]. rewrite Hc. do 2 f_equal. ring.
    - inversion Hall as [|? ? Hi Hrest]; subst.
      destruct (tick_passive i s Hs) as (T1 & T2 & _).
      rewrite final_cons.
      rewrite (IH (fst (tick i s)) (p + balance_gain * t) T1
                 (passive_fixed_reading_step i s _ t p a Ha Ht Hs Hd Hc eq_refl)).
      + do 2 f_equal. cbn [length]. rewrite S_INR. ring.
      + rewrite T2. exact Hd.
      + exact Hrest. }
  rewrite <- (toRotationMatrix_zero a) in Hc.
  rewrite (Hgen ins s 0 Hs Hc Hd Hall). do 2 f_equal.
  unfold balance_gain. ring.
Qed.

Lemma passive_fixed_reading_winds_up_witness :
  control_R (final [with_body_R (transpose (rotX (PI / 2))) input0;
                    with_body_R (transpose (rotX (PI / 2))) input0]
                   (passive0 0%Z)) =
  toRotationMatrix (mkAngleAxisd (INR 2 * (0.031 * (PI / 2))) UnitX).
Proof.
  assert (Hunit : unit_vector UnitX).
  { unfold unit_vector, UnitX. cbn [vx vy vz]. ring. }
  assert (Hquarter : 0 < PI / 2 < PI).
  { pose proof PI_RGT_0. split; lra. }
  apply (passive_fixed_reading_winds_up
           [with_body_R (transpose (rotX (PI / 2))) input0;
            with_body_R (transpose (rotX (PI / 2))) input0]
           (passive0 0%Z) (transpose (rotX (PI / 2))) (PI / 2) UnitX
           Hunit Hquarter eq_refl eq_refl quarter_turn_discrepancy).
  repeat constructor.
Defined.

(** X10.  With both sticks centred the tele-operated target is the
    identity; with only the right stick moved it is the rotation about Y by
    the pitch angle, with only the left stick moved the rotation about X by
    the roll angle. *)
Theorem orient_target_single_axis :
  target_body_R 0 0 = Identity /\
  (forall rv, target_body_R rv 0 = rotY (pitch_angle rv)) /\
  (forall lv, target_body_R 0 lv = rotX (roll_angle lv)).
Proof.
  assert (Hp0 : pitch_angle 0 = 0) by (unfold pitch_angle; field).
  assert (Hr0 : roll_angle 0 = 0) by (unfold roll_angle; field).
  split; [|split]; intros; rewrite target_body_R_entries; cbv zeta;
    rewrite ?Hp0, ?Hr0, ?cos_0, ?sin_0;
    unfold rotX, rotY, toRotationMatrix, vscale, Identity, UnitX, UnitY;
    cbn [angle axis vx vy vz];
    apply matrix_ext; cbn [m00 m01 m02 m10 m11 m12 m20 m21 m22]; ring.
Qed.

End PassiveEdges.

(** ** The control thread under any schedule *)

Lemma step_vars (m : Move) (w w' : World) :
  step m w = Some w' ->
  match m, thread_at w with
  | ThreadMove i, InBody =>
      vars w' = fst (tick i (vars w)) /\
      emitted w' = emitted w ++ snd (tick i (vars w))
  | _, _ => vars w' = vars w /\ emitted w' = emitted w
  end.
Proof.
  destruct w as [mp tp ce ec v em].
  destruct m as [|i]; destruct mp, tp, ec; simpl; intros H;
    try discriminate; inversion H; subst; simpl; split; reflexivity.
Qed.

(** X11.  [main] never touches what the control thread computes.  Under
    any schedule of the two threads, the variables of the loop and the
    events emitted are those of running the loop body, alone, on the inputs
    of the loop bodies the schedule executed. *)
Theorem schedule_runs_the_loop :
  forall (ms : list Move) (w w' : World),
    moves ms w = Some w' ->
    vars w' = final (bodies ms w) (vars w) /\
    emitted w' = emitted w ++ trace (bodies ms w) (vars w).
Proof.
  induction ms as [|m ms IH]; intros w w' H.
  - simpl in H. inversion H; subst. cbn [bodies]. unfold final, trace.
    simpl. rewrite app_nil_r. split; reflexivity.
  - cbn [moves] in H. cbn [bodies].
    destruct (step m w) as [w1|] eqn:E; [|discriminate].
    destruct (IH w1 w' H) as [I1 I2].
    pose proof (step_vars m w w1 E) as Hs.
    destruct m as [|i]; [|destruct (thread_at w)].
    + destruct Hs as [S1 S2]. rewrite I1, I2, S1, S2. split; reflexivity.
    + destruct Hs as [S1 S2]. rewrite I1, I2, S1, S2. split; reflexivity.
    + destruct Hs as [S1 S2].
      rewrite I1, I2, S1, S2, final_cons, trace_cons, app_assoc.
      split; reflexivity.
    + destruct Hs as [S1 S2]. rewrite I1, I2, S1, S2. split; reflexivity.
Qed.

Lemma schedule_runs_the_loop_witness :
  exists w, moves quit_schedule (start (vars0 QUAD_CTRL_STAND_UP1)) = Some w /\
            emitted w = trace [input_quit] (vars0 QUAD_CTRL_STAND_UP1).
Proof.
  destruct (moves quit_schedule (start (vars0 QUAD_CTRL_STAND_UP1)))
    as [w|] eqn:E; [|vm_compute in E; discriminate].
  exists w. split; [reflexivity|].
  destruct (schedule_runs_the_loop quit_schedule _ w E) as [_ H].
  exact H.
Defined.

Lemma bodies_after_clear (ms : list Move) :
  forall w : World,
    invariant w -> control_execute w = false ->
    (length (bodies ms w) <=
     match thread_at w with InBody => 1 | _ => 0 end)%nat.
Proof.
  induction ms as [|m ms IH]; intros w Hinv Hc.
  - cbn [bodies length]. destruct (thread_at w); lia.
  - cbn [bodies]. destruct (step m w) as [w1|] eqn:E.
    2:{ cbn [length]. destruct (thread_at w); lia. }
    pose proof (invariant_step m w w1 Hinv E) as Hinv1.
    destruct (step_after_clear m w w1 Hinv Hc E) as [Hc1 _].
    pose proof (IH w1 Hinv1 Hc1) as Hlen.
    destruct w as [mp tp ce ec v em]. cbn [control_execute] in Hc. subst ce.
    destruct m as [|i]; destruct mp, tp, ec; simpl in E; try discriminate;
      inversion E; subst; cbn [thread_at length] in *; lia.
Qed.

(** X12.  Shutdown costs at most one more iteration.  In every world the
    two threads can reach, once [control_execute] is false any further
    schedule executes at most one loop body, the one that was under way
    when the flag was cleared, and none if the thread was at the flag. *)
Theorem at_most_one_iteration_after_clear :
  forall (ms ms' : list Move) (s : Vars) (w : World),
    moves ms (start s) = Some w ->
    control_execute w = false ->
    (length (bodies ms' w) <= 1)%nat /\
    (thread_at w <> InBody -> bodies ms' w = []).
Proof.
  intros ms ms' s w H Hc.
  pose proof (invariant_moves ms (start s) w (invariant_start s) H) as Hinv.
  pose proof (bodies_after_clear ms' w Hinv Hc) as Hlen.
  split.
  - destruct (thread_at w); lia.
  - intros Hn. destruct (bodies ms' w) as [|i l]; [reflexivity|].
    cbn [length] in Hlen. destruct (thread_at w); try lia. contradiction.
Qed.

Lemma at_most_one_iteration_after_clear_witness :
  exists w,
    moves [MainMove; ThreadMove input0; ThreadMove input_quit;
           MainMove; MainMove] (start (vars0 QUAD_CTRL_STAND_UP1)) = Some w /\
    bodies [ThreadMove input0; ThreadMove input0; MainMove] w = [].
Proof.
  destruct (moves [MainMove; ThreadMove input0; ThreadMove input_quit;
                   MainMove; MainMove] (start (vars0 QUAD_CTRL_STAND_UP1)))
    as [w|] eqn:E; [|vm_compute in E; discriminate].
  exists w. split; [reflexivity|].
  assert (Hw : control_execute w = false /\ thread_at w <> InBody).
  { vm_compute in E. inversion E. split; [reflexivity | discriminate]. }
  destruct Hw as [Hc Ht].
  destruct (at_most_one_iteration_after_clear _
              [ThreadMove input0; ThreadMove input0; MainMove] _ w E Hc)
    as [_ H].
  exact (H Ht).
Defined.

(** ** How long standing up takes, with any clock *)

Lemma tick_staged (i : TickIn) (s : Vars) (m : nat) :
  stage (cur_ctrl_state s) = Some m ->
  clock_state i <= clock_enter i ->
  exists n,
    stage (cur_ctrl_state (fst (tick i s))) = Some n /\
    (n = m /\ state_enter_time (fst (tick i s)) = state_enter_time s /\
     (m = 3%nat -> balance_body_R (fst (tick i s)) = balance_body_R s) \/
     n = S m /\
     state_enter_time s + startup_seconds <= clock_state i /\
     clock_state i <= state_enter_time (fst (tick i s)) /\
     (n = 3%nat -> balance_body_R (fst (tick i s)) = body_R i)).
Proof.
  intros Hm Hord.
  destruct s as [c e ct rt pt d0 tv rv f bd bb db cr ta ax].
  cbn [cur_ctrl_state] in Hm.
  unfold tick, dispatch. simpl.
  destruct c; simpl in Hm; try discriminate; inversion Hm; subst; simpl;
    try (destruct (Z.leb_spec startup_seconds (clock_state i - e)); simpl;
         eexists; (split; [reflexivity|]);
         [right; repeat split; try lia; try discriminate; reflexivity
         |left; repeat split; try discriminate]).
  eexists. split; [reflexivity|]. left. repeat split.
Qed.

(** X18.  Standing up cannot be rushed.  In any run from the first
    stand-up state in which, within an iteration, the clock read for the
    new entry time is not before the one read for the run time, every phase
    lasts at least [startup_seconds]: when the loop is in its n-th later
    state, the entry time recorded is at least n x [startup_seconds] after
    the first one.  Once in the passive-orientation state, the balance
    target is a body orientation that was read, in an iteration at least
    3 x [startup_seconds] after the start. *)
Theorem stand_up_takes_its_time :
  forall (ins : list TickIn) (s : Vars),
    cur_ctrl_state s = QUAD_CTRL_STAND_UP1 ->
    Forall (fun i => clock_state i <= clock_enter i) ins ->
    exists n,
      stage (cur_ctrl_state (final ins s)) = Some n /\
      state_enter_time s + Z.of_nat n * startup_seconds <=
        state_enter_time (final ins s) /\
      (n = 3%nat ->
         exists i, In i ins /\
                   balance_body_R (final ins s) = body_R i /\
                   state_enter_time s + 3 * startup_seconds <= clock_state i).
Proof.
  intros ins s Hs Hord.
  assert (Hgen : forall ins s m,
            stage (cur_ctrl_state s) = Some m ->
            Forall (fun i => clock_state i <= clock_enter i) ins ->
            exists n,
              stage (cur_ctrl_state (final ins s)) = Some n /\
              (m <= n)%nat /\
              state_enter_time s + Z.of_nat (n - m) * startup_seconds <=
                state_enter_time (final ins s) /\
              (n = 3%nat ->
                 (m = 3%nat /\
                  balance_body_R (final ins s) = balance_body_R s) \/
                 exists i, In i ins /\
                   balance_body_R (final ins s) = body_R i /\
                   state_enter_time s + Z.of_nat (3 - m) * startup_seconds
                     <= clock_state i)).
  { clear. induction ins as [|i ins IH]; intros s m Hm Hord.
    - exists m. split; [exact Hm|]. split; [lia|]. split.
      + rewrite Nat.sub_diag. cbn. unfold final. cbn. lia.
      + intros ->. left. split; reflexivity.
    - inversion Hord as [|? ? Hi Hrest]; subst.
      destruct (tick_staged i s m Hm Hi) as (k & Hk & Hcase).
      destruct (IH (fst (tick i s)) k Hk Hrest) as (n & Hn & Hle & Ht & Hb).
      rewrite final_cons. exists n. split; [exact Hn|].
      destruct Hcase as [(-> & He & Hbal) | (-> & H1 & H2 & Hbal)].
      + split; [exact Hle|]. split; [rewrite <- He; exact Ht|].
        intros H3. destruct (Hb H3) as [[-> Hsame] | (j & Hj & Hjb & Hjt)].
        * left. split; [reflexivity|]. rewrite Hsame. apply Hbal. reflexivity.
        * right. exists j. split; [right; exact Hj|]. split; [exact Hjb|].
          rewrite <- He. exact Hjt.
      + split; [lia|]. split.
        * replace (n - m)%nat with (S (n - S m)) by lia.
          rewrite Nat2Z.inj_succ. unfold startup_seconds in *. lia.
        * intros H3. right.
          destruct (Hb H3) as [[Hm3 Hsame] | (j & Hj & Hjb & Hjt)].
          -- exists i. split; [left; reflexivity|]. split.
             ++ rewrite Hsame. apply Hbal. exact Hm3.
             ++ assert (m = 2%nat) by lia. subst m.
                change (Z.of_nat (3 - 2)) with 1. lia.
          -- exists j. split; [right; exact Hj|]. split; [exact Hjb|].
             replace (3 - m)%nat with (S (3 - S m)) by lia.
             rewrite Nat2Z.inj_succ. unfold startup_seconds in *. lia. }
  destruct (Hgen ins s 0%nat) as (n & Hn & _ & Ht & Hb);
    [rewrite Hs; reflexivity | exact Hord |].
  exists n. split; [exact Hn|]. rewrite Nat.sub_0_r in Ht.
  split; [exact Ht|]. intros H3.
  destruct (Hb H3) as [[H0 _] | (j & Hj & Hjb & Hjt)]; [discriminate|].
  exists j. repeat split; assumption.
Qed.

Lemma stand_up_takes_its_time_witness :
  exists n,
    stage (cur_ctrl_state (final (sim_inputs (fun _ => input0) 379 2)
                                 (vars0 QUAD_CTRL_STAND_UP1))) = Some n /\
    Z.of_nat n * startup_seconds <=
      state_enter_time (final (sim_inputs (fun _ => input0) 379 2)
                              (vars0 QUAD_CTRL_STAND_UP1)).
Proof.
  destruct (stand_up_takes_its_time (sim_inputs (fun _ => input0) 379 2)
              (vars0 QUAD_CTRL_STAND_UP1) eq_refl) as (n & H1 & H2 & _).
  - repeat constructor; cbn [clock_state clock_enter at_time]; lia.
  - exists n. split; [exact H1 | exact H2].
Defined.

End FlowFacts.

(** * The start of [main] *)

Module StartupFacts.
Import Startup.

Lemma retry_quiet (connected : nat -> bool) (n : nat) :
  forall (k fuel : nat),
    (forall j, (k <= j < k + n)%nat -> connected j = false) ->
    connected (k + n)%nat = true ->
    (n <= fuel)%nat ->
    retry fuel true connected k = Some (repeat Reset n).
Proof.
  induction n as [|n IH]; intros k fuel Hno Hyes Hfuel.
  - rewrite Nat.add_0_r in Hyes.
    destruct fuel; cbn [retry]; rewrite Hyes; reflexivity.
  - destruct fuel as [|fuel]; [lia|].
    cbn [retry]. rewrite (Hno k ltac:(lia)). cbn [negb].
    rewrite (IH (S k) fuel).
    + reflexivity.
    + intros j Hj. apply Hno. lia.
    + replace (S k + n)%nat with (k + S n)%nat by lia. exact Hyes.
    + lia.
Qed.

Lemma retry_never (connected : nat -> bool) (fuel : nat) :
  forall k : nat,
    (forall j, connected j = false) ->
    retry fuel true connected k = None.
Proof.
  induction fuel as [|fuel IH]; intros k Hno; cbn [retry]; rewrite (Hno k);
    cbn [negb]; [reflexivity|].
  rewrite (IH (S k) Hno). reflexivity.
Qed.

(** X13.  With [is_quiet] as [main] initialises it, a missing joystick
    does not stop the program: whatever [isConnected] answers, the start
    prints "Could not find input joystick." when the first answer is no,
    never calls [reset], never waits, and goes on to "Found input joystick
    -- starting control program.".  The retry loop only runs in quiet mode:
    there the start calls [reset] once for every negative answer before the
    first positive one, prints no warning, and does not get past the loop
    while the answer stays no. *)
Theorem startup_does_not_wait_for_joystick :
  (forall (fuel : nat) (connected : nat -> bool),
     startup fuel is_quiet connected =
       Some ((if connected 0%nat then [] else [CouldNotFind]) ++ [Found])) /\
  (forall (fuel n : nat) (connected : nat -> bool),
     (forall j, (j < n)%nat -> connected j = false) ->
     connected n = true ->
     (n <= fuel)%nat ->
     startup fuel true connected = Some (repeat Reset n ++ [Found])) /\
  (forall (fuel : nat) (connected : nat -> bool),
     (forall j, connected j = false) ->
     startup fuel true connected = None).
Proof.
  split; [|split].
  - intros fuel connected. unfold startup, announce, is_quiet.
    cbn [negb fst snd]. destruct fuel; cbn [retry];
      destruct (connected 0%nat); reflexivity.
  - intros fuel n connected Hno Hyes Hfuel. unfold startup, announce.
    cbn [negb fst snd].
    rewrite (retry_quiet connected n 0 fuel); [reflexivity | | exact Hyes | exact Hfuel].
    intros j Hj. apply Hno. lia.
  - intros fuel connected Hno. unfold startup, announce. cbn [negb fst snd].
    rewrite (retry_never connected fuel 0 Hno). reflexivity.
Qed.

Lemma startup_does_not_wait_for_joystick_witness :
  startup 5 true connected_at_3 = Some [Reset; Reset; Reset; Found].
Proof.
  destruct startup_does_not_wait_for_joystick as (_ & H & _).
  apply (H 5%nat 3%nat connected_at_3).
  - intros j Hj. unfold connected_at_3. apply Nat.leb_gt. exact Hj.
  - reflexivity.
  - lia.
Defined.

End StartupFacts.

(** * The arm example *)

Module ArmFacts.
Import Eigen Arm.

(** ** The command loop *)

Lemma after_rounds_0 (env : Env) (traj : Trajectory) (start : Z) (st : Sys) :
  after_rounds env traj start 0 st = st.
Proof.
  destruct st as [r k l]. unfold after_rounds. cbn [reads feedbacks log seq flat_map].
  rewrite !Nat.add_0_r, app_nil_r. reflexivity.
Qed.

Lemma flat_map_map {A B C : Type} (f : B -> list C) (g : A -> B)
    (l : list A) :
  flat_map f (map g l) = flat_map (fun x => f (g x)) l.
Proof.
  induction l as [|x l IH]; [reflexivity|]. cbn [map flat_map].
  rewrite IH. reflexivity.
Qed.

Lemma after_rounds_S (env : Env) (traj : Trajectory) (start : Z) (n : nat)
    (st : Sys) :
  after_rounds env traj start n (snd (command_round env traj start st)) =
  after_rounds env traj start (S n) st.
Proof.
  destruct st as [r k l]. unfold after_rounds, command_round.
  cbn [reads feedbacks log snd seq flat_map].
  rewrite <- app_assoc. f_equal; [lia | lia |]. f_equal.
  unfold round_events at 2. rewrite !Nat.add_0_r. cbn [app]. do 3 f_equal.
  rewrite <- seq_shift, flat_map_map.
  apply flat_map_ext. intros j. unfold round_events.
  replace (S r + j)%nat with (r + S j)%nat by lia.
  replace (S k + j)%nat with (k + S j)%nat by lia. reflexivity.
Qed.

(** What the loop returns, and when. *)
Lemma command_loop_spec (env : Env) (traj : Trajectory) (start duration : Z)
    (fuel : nat) :
  forall (t : Z) (st st' : Sys),
    command_loop fuel env traj start duration t st = Some st' <->
    (duration <= t /\ st' = st) \/
    (t < duration /\
     exists n, (n < fuel)%nat /\
               first_past env start duration (reads st) n /\
               st' = after_rounds env traj start (S n) st).
Proof.
  induction fuel as [|fuel IH]; intros t st st'; cbn [command_loop];
    destruct (Z.ltb_spec t duration) as [Hlt | Hge].
  - split; [discriminate|]. intros [[H _] | (_ & n & Hn & _)]; lia.
  - split.
    + intros H. inversion H. left. split; [lia | reflexivity].
    + intros [[_ ->] | [H _]]; [reflexivity | lia].
  - rewrite IH. cbn [command_round fst snd reads].
    set (st1 := snd (command_round env traj start st)).
    split.
    + intros [[Hd ->] | (Hd & n & Hn & [Hbefore Hat] & ->)]; right;
        (split; [exact Hlt|]).
      * exists 0%nat. split; [lia|]. split.
        -- split; [intros j Hj; lia | rewrite Nat.add_0_r; exact Hd].
        -- rewrite <- (after_rounds_S env traj start 0 st).
           rewrite after_rounds_0. reflexivity.
      * exists (S n). split; [lia|]. split.
        -- split.
           ++ intros [|j] Hj; [rewrite Nat.add_0_r; exact Hd|].
              replace (reads st + S j)%nat with (S (reads st) + j)%nat by lia.
              apply Hbefore. lia.
           ++ replace (reads st + S n)%nat with (S (reads st) + n)%nat by lia.
              exact Hat.
        -- apply after_rounds_S.
    + intros [[H _] | (_ & n & Hn & [Hbefore Hat] & ->)]; [lia|].
      destruct n as [|n].
      * left. rewrite Nat.add_0_r in Hat. split; [exact Hat|].
        rewrite <- (after_rounds_S env traj start 0 st).
        rewrite after_rounds_0. reflexivity.
      * right. split.
        -- specialize (Hbefore 0%nat ltac:(lia)).
           rewrite Nat.add_0_r in Hbefore. exact Hbefore.
        -- exists n. split; [lia|]. split.
           ++ split.
              ** intros j Hj.
                 replace (S (reads st) + j)%nat with (reads st + S j)%nat by lia.
                 apply Hbefore. lia.
              ** replace (S (reads st) + n)%nat with (reads st + S n)%nat by lia.
                 exact Hat.
           ++ symmetry. apply after_rounds_S.
  - split.
    + intros H. inversion H. left. split; [lia | reflexivity].
    + intros [[_ ->] | [H _]]; [reflexivity | lia].
Qed.

Lemma sampled_app (a b : list Event) :
  sampled (a ++ b) = sampled a ++ sampled b.
Proof.
  induction a as [|e a IH]; [reflexivity|].
  destruct e; cbn [app sampled]; rewrite IH; reflexivity.
Qed.

Lemma created_app (a b : list Event) :
  created (a ++ b) = created a ++ created b.
Proof.
  induction a as [|e a IH]; [reflexivity|].
  destruct e; cbn [app created]; rewrite IH; reflexivity.
Qed.

Lemma rounds_log (env : Env) (traj : Trajectory) (start : Z) (r k n : nat) :
  let evs := flat_map (round_events env traj start r k) (seq 0 n) in
  sampled evs = map (fun j => now env (r + j) - start) (seq 0 n) /\
  created evs = [] /\
  length (filter is_command evs) = n.
Proof.
  cbv zeta. generalize 0%nat.
  induction n as [|n IH]; intros a; [repeat split|].
  cbn [seq flat_map map]. destruct (IH (S a)) as (I1 & I2 & I3).
  rewrite sampled_app, created_app, filter_app, length_app, I1, I2, I3.
  repeat split.
Qed.


(** X14.  [executeTrajectory] sends one command per round, sampled at the
    clock read of that round, and stops on the first read at or past the
    trajectory's duration: every sample but the last is before the end, the
    last one is at or past it, and no command at all is sent when the
    duration has already passed at the first time check.  With as many
    rounds allowed as the clock needs to get past the duration, it
    returns. *)
Theorem executeTrajectory_samples_until_past_the_end :
  forall (fuel : nat) (env : Env) (traj : Trajectory) (st : Sys),
    let start := now env (reads st) in
    let duration := getDuration env traj in
    let t0 := now env (S (reads st)) - start in
    let r := S (S (reads st)) in
    let st0 := mkSys r (feedbacks st) (log st ++ [GetMasses]) in
    (duration <= t0 -> executeTrajectory fuel env traj st = Some st0) /\
    (forall n, t0 < duration -> first_past env start duration r n ->
       (n < fuel)%nat ->
       executeTrajectory fuel env traj st =
         Some (after_rounds env traj start (S n) st0)) /\
    (forall st', executeTrajectory fuel env traj st = Some st' ->
       exists n,
         st' = after_rounds env traj start n st0 /\
         sampled (log st') =
           sampled (log st) ++
           map (fun j => now env (r + j) - start) (seq 0 n) /\
         length (filter is_command (log st')) =
           (length (filter is_command (log st)) + n)%nat /\
         created (log st') = created (log st) /\
         (n = 0%nat <-> duration <= t0) /\
         (forall j, (S j < n)%nat -> now env (r + j) - start < duration) /\
         (forall m, n = S m -> duration <= now env (r + m) - start)).
Proof.
  intros fuel env traj st. cbv zeta.
  set (start := now env (reads st)).
  set (duration := getDuration env traj).
  set (t0 := now env (S (reads st)) - start).
  set (st0 := mkSys (S (S (reads st))) (feedbacks st) (log st ++ [GetMasses])).
  assert (Hlog : forall n,
            sampled (log (after_rounds env traj start n st0)) =
              sampled (log st) ++
              map (fun j => now env (S (S (reads st)) + j) - start) (seq 0 n) /\
            length (filter is_command (log (after_rounds env traj start n st0))) =
              (length (filter is_command (log st)) + n)%nat /\
            created (log (after_rounds env traj start n st0)) =
              created (log st)).
  { intros n. unfold after_rounds, st0. cbn [log reads feedbacks].
    destruct (rounds_log env traj start (S (S (reads st))) (feedbacks st) n)
      as (R1 & R2 & R3).
    rewrite !sampled_app, !created_app, !filter_app, !length_app, R1, R2, R3.
    cbn [sampled created filter is_command length app].
    rewrite !app_nil_r, Nat.add_0_r. repeat split. }
  unfold executeTrajectory. fold start duration t0 st0.
  split; [|split].
  - intros Hd. apply command_loop_spec. left. split; [exact Hd | reflexivity].
  - intros n Hlt Hfirst Hn. apply command_loop_spec. right.
    split; [exact Hlt|]. exists n. repeat split; try assumption; apply Hfirst.
  - intros st' H. apply command_loop_spec in H.
    destruct H as [[Hd ->] | (Hlt & n & Hn & [Hbefore Hat] & ->)].
    + exists 0%nat. rewrite after_rounds_0.
      destruct (Hlog 0%nat) as (L1 & L2 & L3). rewrite after_rounds_0 in *.
      repeat split; try assumption; try lia; intros; try lia; discriminate.
    + exists (S n). destruct (Hlog (S n)) as (L1 & L2 & L3).
      cbn [reads st0] in Hbefore, Hat.
      repeat split; try assumption; try lia; try discriminate.
      * intros j Hj. apply Hbefore. lia.
      * intros m Hm. inversion Hm; subst. exact Hat.
Qed.

Lemma executeTrajectory_samples_until_past_the_end_witness :
  executeTrajectory 5 env0 (mkTrajectory (0, 3) [] []) (mkSys 0 1 []) =
  Some (after_rounds env0 (mkTrajectory (0, 3) [] []) 0 2
                     (mkSys 2 1 [GetMasses])).
Proof.
  destruct (executeTrajectory_samples_until_past_the_end 5 env0
              (mkTrajectory (0, 3) [] []) (mkSys 0 1 [])) as (_ & H & _).
  apply (H 1%nat).
  - vm_compute. reflexivity.
  - split.
    + intros j Hj. assert (j = 0%nat) by lia. subst. vm_compute. reflexivity.
    + vm_compute. discriminate.
  - lia.
Defined.

(** ** [main] *)




Lemma created_SolveIK (targets : list Vector3d) :
  created (map SolveIK targets) = [].
Proof. induction targets as [|x l IH]; [reflexivity | exact IH]. Qed.




(** X16.  When the group is not found, or the gains file cannot be read,
    or the gains are not acknowledged, or the model does not load, [main]
    returns -1 at once, whatever the clock does: it starts no log, asks for
    no feedback or trajectory and sends no command.  The checks are made in
    that order and stop at the first that fails: the gains are read only
    for a group that was found, sent only when read, and the model is
    loaded only after the gains were acknowledged. *)
Theorem main_stops_before_any_command :
  forall (targets : list Vector3d) (fuel : nat) (env : Env),
    all_found env = false ->
    exists tr,
      main_on targets fuel env = Some (-1, tr) /\
      ~ In StartLog tr /\ ~ In GetNextFeedback tr /\ created tr = [] /\
      filter is_command tr = [] /\
      (In ReadGains tr <-> group_found env = true) /\
      (In SendGains tr <-> group_found env && gains_read env = true) /\
      (In LoadHRDF tr <->
         group_found env && gains_read env && gains_acked env = true).
Proof.
  intros targets fuel env H. unfold all_found in H.
  unfold main_on, getGroup.
  destruct (group_found env), (gains_read env), (gains_acked env),
    (model_loaded env); try discriminate; cbn [fst snd negb app andb];
    eexists; (split; [reflexivity|]);
    repeat split; try reflexivity; try discriminate;
    try (intros Hin; cbn [In] in Hin; intuition discriminate);
    try (intros _; cbn [In]; auto 6).
Qed.

Lemma main_stops_before_any_command_witness :
  exists tr, main 0 env_no_model = Some (-1, tr) /\ filter is_command tr = [].
Proof.
  destruct (main_stops_before_any_command xyz_targets 0 env_no_model eq_refl)
    as (tr & H & _ & _ & _ & Hc & _).
  exists tr. split; [exact H | exact Hc].
Defined.

(** ** The plan *)

Lemma segments_cons (a b : JointVec) (l : list JointVec) :
  segments (a :: b :: l) = (a, b) :: segments (b :: l).
Proof. reflexivity. Qed.

Lemma chained_segments (l : list JointVec) :
  forall (a : JointVec) (tr : Trajectory),
    to tr = a ->
    chained (tr :: map (fun seg => mkTrajectory (0, 3) (fst seg) (snd seg))
                       (segments (a :: l))).
Proof.
  induction l as [|b l IH]; intros a tr Hto.
  - exact I.
  - rewrite segments_cons. cbn [map chained fst snd].
    split; [exact Hto|]. apply IH. reflexivity.
Qed.

Lemma map_to_segments (l : list JointVec) :
  forall a : JointVec,
    map to (map (fun seg => mkTrajectory (0, 3) (fst seg) (snd seg))
                (segments (a :: l))) = l.
Proof.
  induction l as [|b l IH]; intros a; [reflexivity|].
  rewrite segments_cons. cbn [map to snd]. rewrite IH. reflexivity.
Qed.

Lemma solve_targets_length (env : Env) (targets : list Vector3d) :
  forall r, length (solve_targets env targets r) = length targets.
Proof.
  induction targets as [|x l IH]; intros r; [reflexivity|].
  cbn [solve_targets length]. rewrite IH. reflexivity.
Qed.

(** X17.  The moves of [main] close the box.  For any corners, at least
    one, the trajectories asked for are one more than the corners; each
    starts at the joint angles the one before ends at; they end, in order,
    at the IK solution of each corner and then at that of the first corner
    again, so the last move returns to where the first one arrived. *)
Theorem plan_is_a_closed_chain :
  forall (env : Env) (targets : list Vector3d),
    targets <> [] ->
    let p := plan env targets in
    length p = S (length targets) /\
    chained p /\
    map to p = joint_targets env targets /\
    map to p =
      solve_targets env targets [] ++
      [nth 0 (solve_targets env targets []) []] /\
    last (map to p) [] = nth 0 (map to p) [].
Proof.
  intros env targets Hne. cbv zeta. unfold plan, joint_targets.
  pose proof (solve_targets_length env targets []) as Hlen.
  destruct (solve_targets env targets []) as [|j0 js] eqn:E.
  { destruct targets; [contradiction | discriminate]. }
  cbn [nth app]. cbn [map to].
  rewrite (map_to_segments (js ++ [j0]) j0).
  repeat split.
  - cbn [length]. rewrite length_map. unfold segments.
    rewrite length_combine. cbn [tl].
    change (j0 :: js ++ [j0]) with ((j0 :: js) ++ [j0]).
    rewrite removelast_last, length_app. cbn [length] in *. lia.
  - apply chained_segments. reflexivity.
  - change (j0 :: js ++ [j0]) with ((j0 :: js) ++ [j0]).
    apply last_last.
Qed.

Lemma plan_is_a_closed_chain_witness :
  map to (plan env0 xyz_targets) =
  [[0.40; 0.20; 0.10]; [0.40; 0.20; 0.50]; [0.40; -0.20; 0.50];
   [0.40; -0.20; 0.10]; [0.40; 0.20; 0.10]]%R.
Proof.
  destruct (plan_is_a_closed_chain env0 xyz_targets) as (_ & _ & H & _).
  - discriminate.
  - rewrite H. reflexivity.
Defined.

End ArmFacts.
